(** * contex: OAuth 2.1 credentials of the MCP server

    A shallow embedding of the authentication subsystem of contex
    ([src/auth/pkce.ts], [src/auth/oauth.ts], [src/auth/tokenManager.ts],
    [src/auth/middleware.ts], with [src/core/result.ts] and
    [src/core/errors.ts]) and the properties of its specification.

    Conventions of the embedding.
    - TypeScript records are Rocq records typed as their interfaces declare
      them; an optional field [f?: T] is an [option T], where [None] stands
      for [undefined] (and for [null], which the code never tells apart
      from it).
    - A value of type [unknown] is a [Js.value].
    - Numbers are integers (millisecond time stamps, whole seconds) or
      [NaN]; fractions and infinities are not represented.
    - Strings are byte strings: a Rocq [string] is the UTF-8 image of the
      JavaScript string.
    - [Date.now()] is an explicit argument [now], or the clock of the
      [World] for code that awaits the network.
    - What the JavaScript run time provides and the repository does not
      define (conversions of ill-typed values, the URL parser, SHA-256) is a
      field of a class, about which nothing is assumed beyond what is
      stated there. *)

From Stdlib Require Import ZArith NArith Strings.String Strings.Ascii Strings.Byte List Bool Lia.
From stdpp Require Import base option gmap strings list.

Local Set Warnings "-register-all".
Local Open Scope string_scope.
Local Open Scope Z_scope.

(** ** JavaScript values *)

Module Js.

(** A JavaScript number, as far as this program needs one. *)
Inductive number :=
| Num (z : Z)
| NaN.

Definition add (a b : number) : number :=
  match a, b with
  | Num x, Num y => Num (x + y)
  | _, _ => NaN
  end.

Definition sub (a b : number) : number :=
  match a, b with
  | Num x, Num y => Num (x - y)
  | _, _ => NaN
  end.

Definition mul (a b : number) : number :=
  match a, b with
  | Num x, Num y => Num (x * y)
  | _, _ => NaN
  end.

(** [a >= b]: every comparison with [NaN] is false. *)
Definition geb (a b : number) : bool :=
  match a, b with
  | Num x, Num y => (y <=? x)%Z
  | _, _ => false
  end.

(** Truthiness of a number: [0] and [NaN] are falsy. *)
Definition truthy_number (n : number) : bool :=
  match n with
  | Num z => negb (z =? 0)%Z
  | NaN => false
  end.

(** A value of type [unknown]: what [response.json()] can produce, and
    [undefined]. An object is the list of its own properties. *)
Inductive value :=
| Undefined
| Null
| Bool (b : bool)
| Number (n : number)
| Str (s : string)
| Array (items : list value)
| Object (fields : list (string * value)).

(** [!!v] *)
Definition truthy (v : value) : bool :=
  match v with
  | Undefined | Null => false
  | Bool b => b
  | Number n => truthy_number n
  | Str s => negb (String.eqb s "")
  | Array _ | Object _ => true
  end.

(** [typeof v === 'object'] *)
Definition typeof_object (v : value) : bool :=
  match v with
  | Null | Array _ | Object _ => true
  | _ => false
  end.

(** [typeof v === 'string'] *)
Definition typeof_string (v : value) : bool :=
  match v with
  | Str _ => true
  | _ => false
  end.


Fixpoint assoc (k : string) (fields : list (string * value)) : value :=
  match fields with
  | [] => Undefined
  | (k', v) :: rest => if String.eqb k k' then v else assoc k rest
  end.

(** [data.k] for a payload that passed the object test and [k] one of the
    token-endpoint field names: a property the object does not have, and
    any such property of an array, reads as [undefined]. *)
Definition get (data : value) (k : string) : value :=
  match data with
  | Object fields => assoc k fields
  | _ => Undefined
  end.

(** The conversions of the run time on values that are not already of the
    target type. On an object or an array the run time calls [valueOf] and
    [toString], and throws a [TypeError] when neither is callable, as for
    [{"toString": 1, "valueOf": 1}]; the embedding has no exception there,
    so what is proved of a conversion is stated for values that are not
    objects. *)
Class Runtime := {
  (** [String(v)] for [v] not a string. *)
  StringOf : value -> string;
  (** [ToNumber(v)], applied by [*], for [v] a string, array or object. *)
  NumberOf : value -> number;
  (** [v as string] is erased when the program runs. Where [v] is a string
      the typed field holds it; where it is not, the declared types do not
      describe the run any more, and the field holds [ill_typed v]. *)
  ill_typed : value -> string;
}.

(** [String(v)] *)
Definition String_ `{Runtime} (v : value) : string :=
  match v with
  | Str s => s
  | _ => StringOf v
  end.

(** [ToNumber(v)] *)
Definition ToNumber `{Runtime} (v : value) : number :=
  match v with
  | Undefined => NaN
  | Null => Num 0
  | Bool b => Num (if b then 1 else 0)
  | Number n => n
  | _ => NumberOf v
  end.

(** [v as string | undefined] read into an optional string field. *)
Definition as_optional_string `{Runtime} (v : value) : option string :=
  match v with
  | Undefined | Null => None
  | Str s => Some s
  | _ => Some (ill_typed v)
  end.

(** [s.split(sep)] for a separator of one character. *)
Fixpoint split (sep : ascii) (s : string) : list string :=
  match s with
  | EmptyString => [EmptyString]
  | String c rest =>
      if Ascii.eqb c sep then EmptyString :: split sep rest
      else match split sep rest with
           | part :: parts => String c part :: parts
           | [] => [String c EmptyString]
           end
  end.

(** [parts.join(sep)] *)
Fixpoint join (sep : string) (parts : list string) : string :=
  match parts with
  | [] => ""
  | [p] => p
  | p :: rest => p +:+ sep +:+ join sep rest
  end.

(** [xs.includes(x)] on strings. *)
Definition includes (xs : list string) (x : string) : bool :=
  existsb (String.eqb x) xs.

Definition lower_ascii (c : ascii) : ascii :=
  let n := nat_of_ascii c in
  if ((65 <=? n) && (n <=? 90))%nat then ascii_of_nat (n + 32) else c.

(** [s.toLowerCase()]: exact on ASCII; other bytes are kept, and no
    character outside ASCII has a lower case that is an ASCII letter of
    the word this program compares with. *)
Fixpoint toLowerCase (s : string) : string :=
  match s with
  | EmptyString => EmptyString
  | String c rest => String (lower_ascii c) (toLowerCase rest)
  end.

(** [!!s] for a string or [undefined]. *)
Definition truthy_string (s : option string) : bool :=
  match s with
  | Some s => negb (String.eqb s "")
  | None => false
  end.

End Js.

(** ** core/result.ts and core/errors.ts *)

Inductive Result (T E : Type) :=
| Ok (value : T)
| Err (error : E).
Arguments Ok {T E} value.
Arguments Err {T E} error.

Definition isOk {T E} (r : Result T E) : bool :=
  match r with Ok _ => true | Err _ => false end.


Record OAuthError := mkOAuthError {
  oauth_message : string;
  oauth_code : option string;
  oauth_statusCode : option Z;
}.

Record TokenError := mkTokenError {
  token_message : string;
  token_tokenType : option string;
}.

Definition oauthError (message : string) (code : option string)
    (statusCode : option Z) : OAuthError :=
  mkOAuthError message code statusCode.

Definition tokenError (message : string) (tokenType : option string) : TokenError :=
  mkTokenError message tokenType.

(** ** core/types.ts *)

Record OAuthConfig := mkOAuthConfig {
  clientId : string;
  clientSecret : string;
  authorizationUrl : string;
  tokenUrl : string;
  scopes : list string;
  pkce : option bool;
  config_redirectUri : option string;
}.

Record TokenSet := mkTokenSet {
  accessToken : string;
  tokenType : string;
  expiresAt : option Js.number;
  refreshToken : option string;
  scope : option string;
}.

(** The only member of the type ['S256']. *)
Inductive CodeChallengeMethod := S256.

Definition method_string (m : CodeChallengeMethod) : string :=
  match m with S256 => "S256" end.

Record PkceParams := mkPkceParams {
  codeVerifier : string;
  codeChallenge : string;
  codeChallengeMethod : CodeChallengeMethod;
}.

Record AuthorizationState := mkAuthorizationState {
  auth_state : string;
  auth_pkce : PkceParams;
  redirectUri : string;
  createdAt : Z;
}.

(** ** The URL API of the run time *)

(** A parsed URL: what precedes the query, the query as the ordered list of
    its decoded name-value pairs ([url.searchParams]), and the fragment.
    [url.toString()] serialises exactly this record. *)
Record URL := mkURL {
  url_base : string;
  searchParams : list (string * string);
  url_hash : string;
}.

(** [new URL(s)], which throws a [TypeError] ([None]) on a string that is
    not a URL. *)
Class UrlApi := {
  parseUrl : string -> option URL;
}.

(** [params.get(name)]: the value of the first pair named [name]. *)
Fixpoint sp_get (name : string) (params : list (string * string)) : option string :=
  match params with
  | [] => None
  | (k, v) :: rest => if String.eqb k name then Some v else sp_get name rest
  end.

(** [params.has(name)] *)
Definition sp_has (name : string) (params : list (string * string)) : bool :=
  match sp_get name params with Some _ => true | None => false end.

Definition sp_remove (name : string) (params : list (string * string))
    : list (string * string) :=
  List.filter (fun p => negb (String.eqb (fst p) name)) params.

(** [params.set(name, value)]: the first pair named [name] takes the value
    and the other pairs of that name are removed; with no such pair, one is
    appended. *)
Fixpoint sp_set (name value : string) (params : list (string * string))
    : list (string * string) :=
  match params with
  | [] => [(name, value)]
  | (k, v) :: rest =>
      if String.eqb k name then (name, value) :: sp_remove name rest
      else (k, v) :: sp_set name value rest
  end.

Definition url_set (name value : string) (url : URL) : URL :=
  mkURL (url_base url) (sp_set name value (searchParams url)) (url_hash url).

(** ** auth/pkce.ts *)

(** [createHash('sha256').update(m).digest()] *)
Class Crypto := {
  sha256 : list byte -> list byte;
}.

Definition base64_alphabet : list ascii :=
  list_ascii_of_string
    "ABCDEFGHIJKLMNOPQRSTUVWXYZabcdefghijklmnopqrstuvwxyz0123456789+/".

Definition base64_char (sextet : N) : ascii :=
  nth (N.to_nat sextet) base64_alphabet "A"%char.

Definition sextet1 (a : byte) : N := N.shiftr (Byte.to_N a) 2.
Definition sextet2 (a b : byte) : N :=
  N.lor (N.shiftl (N.land (Byte.to_N a) 3) 4) (N.shiftr (Byte.to_N b) 4).
Definition sextet3 (b c : byte) : N :=
  N.lor (N.shiftl (N.land (Byte.to_N b) 15) 2) (N.shiftr (Byte.to_N c) 6).
Definition sextet4 (c : byte) : N := N.land (Byte.to_N c) 63.

(** [buffer.toString('base64')]: RFC 4648 with padding. *)
Fixpoint toString_base64 (buffer : list byte) : string :=
  match buffer with
  | [] => ""
  | [a] =>
      String (base64_char (sextet1 a))
        (String (base64_char (sextet2 a "000"%byte)) "==")
  | [a; b] =>
      String (base64_char (sextet1 a))
        (String (base64_char (sextet2 a b))
          (String (base64_char (sextet3 b "000"%byte)) "="))
  | a :: b :: c :: rest =>
      String (base64_char (sextet1 a))
        (String (base64_char (sextet2 a b))
          (String (base64_char (sextet3 b c))
            (String (base64_char (sextet4 c)) (toString_base64 rest))))
  end.

(** [s.replace(/c/g, by)] for a pattern of one literal character. *)
Fixpoint replace_all (c : ascii) (by_ : string) (s : string) : string :=
  match s with
  | EmptyString => EmptyString
  | String x rest =>
      if Ascii.eqb x c then by_ +:+ replace_all c by_ rest
      else String x (replace_all c by_ rest)
  end.

Definition base64UrlEncode (buffer : list byte) : string :=
  replace_all "="%char ""
    (replace_all "/"%char "_"
      (replace_all "+"%char "-" (toString_base64 buffer))).

Definition computeCodeChallenge `{Crypto} (verifier : string) : string :=
  let hash := sha256 (list_byte_of_string verifier) in
  base64UrlEncode hash.

Definition validateCodeVerifier `{Crypto} (verifier challenge : string) : bool :=
  String.eqb (computeCodeChallenge verifier) challenge.

(** The object returned, as [Object.entries] lists it. *)
Definition pkceToQueryParams (params : PkceParams) : list (string * string) :=
  [ ("code_challenge", codeChallenge params);
    ("code_challenge_method", method_string (codeChallengeMethod params)) ].

Definition pkceToTokenParams (verifier : string) : gmap string string :=
  {[ "code_verifier" := verifier ]}.

(** ** auth/oauth.ts *)

(** [config.pkce !== false] *)
Definition pkce_not_false (config : OAuthConfig) : bool :=
  match pkce config with
  | Some false => false
  | _ => true
  end.

(** The value returned is the URL whose serialisation [url.toString()]
    gives; [None] when [new URL] throws. *)
Definition buildAuthorizationUrl `{UrlApi} (config : OAuthConfig)
    (state : AuthorizationState) : option URL :=
  match parseUrl (authorizationUrl config) with
  | None => None
  | Some url =>
      let url := url_set "response_type" "code" url in
      let url := url_set "client_id" (clientId config) url in
      let url := url_set "redirect_uri" (redirectUri state) url in
      let url := url_set "state" (auth_state state) url in
      let url :=
        if (0 <? length (scopes config))%nat
        then url_set "scope" (Js.join " " (scopes config)) url
        else url in
      let url :=
        if pkce_not_false config
        then
          let pkceParams := pkceToQueryParams (auth_pkce state) in
          fold_left (fun u entry => url_set (fst entry) (snd entry) u) pkceParams url
        else url in
      Some url
  end.

Definition validateState (expected received : string) : bool :=
  String.eqb expected received.

Definition isStateExpired (now : Z) (state : AuthorizationState)
    (maxAgeMs : option Z) : bool :=
  let maxAgeMs := default (10 * 60 * 1000) maxAgeMs in
  (maxAgeMs <? now - createdAt state)%Z.

Definition buildTokenRequestBody (config : OAuthConfig) (code : string)
    (state : AuthorizationState) : gmap string string :=
  let body : gmap string string :=
    <["grant_type" := "authorization_code"]>
      (<["code" := code]>
        (<["redirect_uri" := redirectUri state]>
          (<["client_id" := clientId config]> ∅))) in
  let body :=
    if Js.truthy_string (Some (clientSecret config))
    then <["client_secret" := clientSecret config]> body
    else body in
  let body :=
    if pkce_not_false config
    then pkceToTokenParams (codeVerifier (auth_pkce state)) ∪ body
    else body in
  body.

Definition buildRefreshTokenBody (config : OAuthConfig) (refreshToken : string)
    : gmap string string :=
  <["grant_type" := "refresh_token"]>
    (<["refresh_token" := refreshToken]>
      (<["client_id" := clientId config]>
        (<["client_secret" := clientSecret config]> ∅))).

Definition parseTokenResponse `{Js.Runtime} (now : Z) (response : Js.value)
    : Result TokenSet OAuthError :=
  if negb (Js.truthy response) || negb (Js.typeof_object response) then
    Err (oauthError "Invalid token response format" None None)
  else
    let data := response in
    if Js.truthy (Js.get data "error") then
      let errorDesc := Js.as_optional_string (Js.get data "error_description") in
      Err (oauthError
             (default (Js.String_ (Js.get data "error")) errorDesc)
             (Js.as_optional_string (Js.get data "error"))
             None)
    else
      match Js.get data "access_token" with
      | Js.Str access_token =>
          if negb (Js.truthy (Js.Str access_token)) then
            Err (oauthError "Missing access_token in response" None None)
          else
            Ok {| accessToken := access_token;
                  tokenType :=
                    default "Bearer"
                      (Js.as_optional_string (Js.get data "token_type"));
                  expiresAt :=
                    if Js.truthy (Js.get data "expires_in")
                    then Some (Js.add (Js.Num now)
                                 (Js.mul (Js.ToNumber (Js.get data "expires_in"))
                                         (Js.Num 1000)))
                    else None;
                  refreshToken :=
                    Js.as_optional_string (Js.get data "refresh_token");
                  scope := Js.as_optional_string (Js.get data "scope") |}
      | _ => Err (oauthError "Missing access_token in response" None None)
      end.

Definition isTokenExpired (now : Z) (token : TokenSet) (bufferMs : option Z)
    : bool :=
  let bufferMs := default (30 * 1000) bufferMs in
  match expiresAt token with
  | None => false
  | Some expires =>
      if negb (Js.truthy_number expires) then false
      else Js.geb (Js.Num now) (Js.sub expires (Js.Num bufferMs))
  end.

Definition canRefreshToken (token : TokenSet) : bool :=
  match refreshToken token with
  | Some _ => true
  | None => false
  end.

Definition createAuthHeader (token : TokenSet) : string :=
  tokenType token +:+ " " +:+ accessToken token.

Definition getTokenScopes (token : TokenSet) : list string :=
  match scope token with
  | Some s =>
      if Js.truthy_string (Some s)
      then List.filter (fun s => (0 <? String.length s)%nat) (Js.split " "%char s)
      else []
  | None => []
  end.

Definition hasScope (token : TokenSet) (scope : string) : bool :=
  Js.includes (getTokenScopes token) scope.

(** ** auth/tokenManager.ts *)

(** What a rejected promise carries: an [Error] with its message, or some
    other thrown value. *)
Inductive Thrown :=
| ThrownError (message : string)
| ThrownOther.

(** [e instanceof Error ? e.message : fallback] *)
Definition error_message (fallback : string) (e : Thrown) : string :=
  match e with
  | ThrownError message => message
  | ThrownOther => fallback
  end.

(** The call [httpFetch(url, {method, headers, body})]; [fetch_body] holds
    the form fields that [new URLSearchParams(body).toString()] encodes. *)
Record FetchRequest := mkFetchRequest {
  fetch_url : string;
  fetch_method : string;
  fetch_headers : list (string * string);
  fetch_body : gmap string string;
}.

(** How [httpFetch(...)] followed by [response.json()] ends: one of the two
    promises rejects, or the body parses to a JSON value. *)
Inductive FetchOutcome :=
| Rejected (e : Thrown)
| Json (data : Js.value).

(** The state outside the program: the map of [createMemoryStorage], the
    clock [Date.now()] reads, and the requests sent so far, latest first. *)
Record World := mkWorld {
  store : gmap string TokenSet;
  clock : Z;
  fetched : list FetchRequest;
}.

(** An asynchronous computation, run to completion. *)
Definition Async (A : Type) : Type := World -> A * World.

Definition ret {A} (a : A) : Async A := fun w => (a, w).

Definition bind {A B} (m : Async A) (k : A -> Async B) : Async B :=
  fun w => let (a, w') := m w in k a w'.

Notation "'await' x <~ m ;; k" := (bind m (fun x => k))
  (at level 10, x name, m at level 99, k at level 200,
   format "'[v' 'await'  x  <~  m  ;; '/' k ']'").

(** A promise that may reject. *)
Definition Promise (A : Type) : Type := Async (Thrown + A).

Definition tryCatchAsync {T E} (fn : Promise T) (onError : Thrown -> E)
    : Async (Result T E) :=
  await r <~ fn ;;
  match r with
  | inr value => ret (Ok value)
  | inl e => ret (Err (onError e))
  end.

Definition dateNow : Async Z := fun w => (clock w, w).

(** The storage of [createMemoryStorage]: its promises never reject. *)
Definition storage_get (key : string) : Async (option TokenSet) :=
  fun w => (store w !! key, w).

Definition storage_set (key : string) (token : TokenSet) : Promise unit :=
  fun w => (inr tt, mkWorld (<[key := token]> (store w)) (clock w) (fetched w)).

Definition storage_delete (key : string) : Promise unit :=
  fun w => (inr tt, mkWorld (delete key (store w)) (clock w) (fetched w)).

(** The manager: its [storage] is the store of the world; [httpFetch] gives,
    for a request, how it ends and the milliseconds it takes. *)
Record TokenManagerState := mkTokenManagerState {
  config : OAuthConfig;
  httpFetch : FetchRequest -> FetchOutcome * Z;
}.

(** Awaiting [httpFetch] and [response.json()]: the request is sent, time
    passes, and the promise settles. *)
Definition fetch_json (state : TokenManagerState) (request : FetchRequest)
    : Promise Js.value :=
  fun w =>
    let (outcome, elapsed) := httpFetch state request in
    let w' := mkWorld (store w) (clock w + elapsed) (request :: fetched w) in
    match outcome with
    | Rejected e => (inl e, w')
    | Json data => (inr data, w')
    end.

Definition getToken (state : TokenManagerState) (key : string)
    : Async (Result TokenSet TokenError) :=
  await token <~ storage_get key ;;
  match token with
  | None => ret (Err (tokenError "Token not found" (Some key)))
  | Some token => ret (Ok token)
  end.

Definition setToken (state : TokenManagerState) (key : string) (token : TokenSet)
    : Async (Result unit TokenError) :=
  tryCatchAsync (storage_set key token)
    (fun e => tokenError (error_message "Failed to store token" e) None).

Definition deleteToken (state : TokenManagerState) (key : string)
    : Async (Result unit TokenError) :=
  tryCatchAsync (storage_delete key)
    (fun e => tokenError (error_message "Failed to delete token" e) None).

Definition refreshTokenRequest `{Js.Runtime} (state : TokenManagerState)
    (refreshToken : string) : Async (Result TokenSet TokenError) :=
  let body := buildRefreshTokenBody (config state) refreshToken in
  await result <~
    tryCatchAsync
      (fetch_json state
         (mkFetchRequest (tokenUrl (config state)) "POST"
            [("Content-Type", "application/x-www-form-urlencoded")] body))
      (fun e => tokenError (error_message "Token refresh request failed" e) None) ;;
  match result with
  | Err e => ret (Err e)
  | Ok value =>
      await now <~ dateNow ;;
      match parseTokenResponse now value with
      | Err error => ret (Err (tokenError (oauth_message error) None))
      | Ok tokenSet => ret (Ok tokenSet)
      end
  end.

Definition getValidToken `{Js.Runtime} (state : TokenManagerState) (key : string)
    : Async (Result TokenSet TokenError) :=
  await tokenResult <~ getToken state key ;;
  match tokenResult with
  | Err e => ret (Err e)
  | Ok token =>
      await now <~ dateNow ;;
      if negb (isTokenExpired now token None) then ret (Ok token)
      else if negb (canRefreshToken token) then
        ret (Err (tokenError "Token expired and no refresh token available" None))
      else
        (* [token.refreshToken!]: present, by the test above *)
        await refreshResult <~
          refreshTokenRequest state (default "" (refreshToken token)) ;;
        match refreshResult with
        | Err e => ret (Err e)
        | Ok newToken =>
            await _stored <~ setToken state key newToken ;;
            ret (Ok newToken)
        end
  end.


Definition mergeTokens (existingToken newToken : TokenSet) : TokenSet :=
  {| accessToken := accessToken newToken;
     tokenType := tokenType newToken;
     expiresAt := expiresAt newToken;
     refreshToken :=
       match refreshToken newToken with
       | Some r => Some r
       | None => refreshToken existingToken
       end;
     scope := scope newToken |}.

(** ** auth/middleware.ts *)

(** The parts of an Express request the middleware reads or writes:
    [req.headers.authorization], [req.query.access_token] (a string, an
    array, a nested object or [undefined]) and [req.token]. *)
Record Request := mkRequest {
  authorization : option string;
  access_token : Js.value;
  token : option TokenSet;
}.

(** [res.status(status).json({error, error_description})] *)
Record Response := mkResponse {
  status : Z;
  error : string;
  error_description : string;
}.

(** A handler ends by answering or by calling [next()] on the request as it
    has left it. *)
Inductive Handled :=
| Responded (res : Response)
| Next (req : Request).

(** A validator whose promise resolves, with [Ok] or [Err]. A promise that
    rejects is not represented: no handler catches it, and what is proved of
    a handler is stated for validators that return. *)
Definition TokenValidator : Type := string -> Result TokenSet OAuthError.

Definition extractBearerToken (authHeader : option string) : option string :=
  match authHeader with
  | None => None
  | Some authHeader =>
      if negb (Js.truthy_string (Some authHeader)) then None
      else
        let parts := Js.split " "%char authHeader in
        if negb (length parts =? 2)%nat then None
        else if negb (String.eqb (Js.toLowerCase (nth 0 parts "")) "bearer") then None
        else Some (nth 1 parts "")
  end.

Definition extractToken (req : Request) : option string :=
  let headerToken := extractBearerToken (authorization req) in
  if Js.truthy_string headerToken then headerToken
  else
    let queryToken := access_token req in
    match queryToken with
    | Js.Str queryToken => Some queryToken
    | _ => None
    end.

Definition createAuthMiddleware (validator : TokenValidator) (req : Request)
    : Handled :=
  let token := extractToken req in
  if negb (Js.truthy_string token) then
    Responded (mkResponse 401 "unauthorized" "Missing authentication token")
  else
    let validationResult := validator (default "" token) in
    match validationResult with
    | Err error =>
        Responded (mkResponse 401 "invalid_token" (oauth_message error))
    | Ok value =>
        Next (mkRequest (authorization req) (access_token req) (Some value))
    end.

Definition requireScopes (requiredScopes : list string) (req : Request)
    : Handled :=
  match token req with
  | None => Responded (mkResponse 401 "unauthorized" "Authentication required")
  | Some token =>
      let missingScopes :=
        List.filter (fun scope => negb (hasScope token scope)) requiredScopes in
      if (0 <? length missingScopes)%nat then
        Responded
          (mkResponse 403 "insufficient_scope"
             ("Missing required scopes: " +:+ Js.join ", " missingScopes))
      else Next req
  end.

Definition optionalAuth (validator : TokenValidator) (req : Request) : Handled :=
  let token := extractToken req in
  if negb (Js.truthy_string token) then Next req
  else
    let validationResult := validator (default "" token) in
    match validationResult with
    | Ok value =>
        Next (mkRequest (authorization req) (access_token req) (Some value))
    | Err _ => Next req
    end.

(** ** SHA-256

    The function behind [createHash('sha256')], after FIPS 180-4, on which
    the examples are run. Words are integers below [2 ^ 32]; the round
    constants are computed from the primes as the standard defines them. *)

Module Sha256.

Definition wrap (x : Z) : Z := x mod 2 ^ 32.

Definition rotr (n x : Z) : Z :=
  Z.lor (Z.shiftr x n) (wrap (Z.shiftl x (32 - n))).

Definition Ch (x y z : Z) : Z :=
  Z.lxor (Z.land x y) (Z.land (Z.lnot x) z).

Definition Maj (x y z : Z) : Z :=
  Z.lxor (Z.land x y) (Z.lxor (Z.land x z) (Z.land y z)).

Definition Sigma0 (x : Z) : Z := Z.lxor (rotr 2 x) (Z.lxor (rotr 13 x) (rotr 22 x)).
Definition Sigma1 (x : Z) : Z := Z.lxor (rotr 6 x) (Z.lxor (rotr 11 x) (rotr 25 x)).
Definition sigma0 (x : Z) : Z := Z.lxor (rotr 7 x) (Z.lxor (rotr 18 x) (Z.shiftr x 3)).
Definition sigma1 (x : Z) : Z := Z.lxor (rotr 17 x) (Z.lxor (rotr 19 x) (Z.shiftr x 10)).

(** The primes below 312, by trial division: the first 64 primes. *)
Definition is_prime (p : Z) : bool :=
  forallb (fun d => negb (p mod Z.of_nat d =? 0)) (seq 2 (Z.to_nat p - 2)).

Definition primes : list Z :=
  filter is_prime (map Z.of_nat (seq 2 310)).

(** The largest [r] below [2 ^ bits] with [r ^ 3 <= n]. *)
Fixpoint cube_root (bits : nat) (n r : Z) : Z :=
  match bits with
  | O => r
  | S bits' =>
      let r' := r + 2 ^ Z.of_nat bits' in
      cube_root bits' n (if r' * r' * r' <=? n then r' else r)
  end.

(** The first 32 bits of the fractional part of the cube root, and of the
    square root, of [p]. *)
Definition cube_root_fraction (p : Z) : Z := wrap (cube_root 36 (p * 2 ^ 96) 0).
Definition square_root_fraction (p : Z) : Z := wrap (Z.sqrt (p * 2 ^ 64)).

Definition K : list Z := Eval vm_compute in map cube_root_fraction primes.
Definition H0 : list Z := Eval vm_compute in map square_root_fraction (firstn 8 primes).

Record state := mkState { ha : Z; hb : Z; hc : Z; hd : Z; he : Z; hf : Z; hg : Z; hh : Z }.

Definition initial : state :=
  mkState (nth 0 H0 0) (nth 1 H0 0) (nth 2 H0 0) (nth 3 H0 0)
          (nth 4 H0 0) (nth 5 H0 0) (nth 6 H0 0) (nth 7 H0 0).

(** Big-endian words of a block of bytes. *)
Fixpoint words (block : list Z) : list Z :=
  match block with
  | b0 :: b1 :: b2 :: b3 :: rest =>
      (b0 * 2 ^ 24 + b1 * 2 ^ 16 + b2 * 2 ^ 8 + b3) :: words rest
  | _ => []
  end.

(** The message schedule, extended by [count] words. *)
Fixpoint schedule (count : nat) (W : list Z) : list Z :=
  match count with
  | O => W
  | S count' =>
      let t := length W in
      let w := wrap (sigma1 (nth (t - 2) W 0) + nth (t - 7) W 0
                     + sigma0 (nth (t - 15) W 0) + nth (t - 16) W 0) in
      schedule count' (W ++ [w])
  end.

Definition round (s : state) (kw : Z * Z) : state :=
  let (k, w) := kw in
  let T1 := wrap (hh s + Sigma1 (he s) + Ch (he s) (hf s) (hg s) + k + w) in
  let T2 := wrap (Sigma0 (ha s) + Maj (ha s) (hb s) (hc s)) in
  mkState (wrap (T1 + T2)) (ha s) (hb s) (hc s) (wrap (hd s + T1)) (he s) (hf s) (hg s).

Definition compress (s : state) (block : list Z) : state :=
  let W := schedule 48 (words block) in
  let s' := fold_left round (combine K W) s in
  mkState (wrap (ha s + ha s')) (wrap (hb s + hb s')) (wrap (hc s + hc s'))
          (wrap (hd s + hd s')) (wrap (he s + he s')) (wrap (hf s + hf s'))
          (wrap (hg s + hg s')) (wrap (hh s + hh s')).

(** The message followed by the bit 1, zeros, and its length in bits on 64
    bits, a multiple of 64 bytes in all. *)
Definition pad (message : list Z) : list Z :=
  let len := Z.of_nat (length message) in
  let zeros := Z.to_nat ((55 - len) mod 64) in
  message ++ [128] ++ repeat 0 zeros
    ++ map (fun i => Z.shiftr (8 * len) (8 * (7 - Z.of_nat i)) mod 256) (seq 0 8).

Fixpoint blocks (count : nat) (bytes : list Z) (s : state) : state :=
  match count with
  | O => s
  | S count' => blocks count' (skipn 64 bytes) (compress s (firstn 64 bytes))
  end.

Definition word_bytes (w : Z) : list Z :=
  [Z.shiftr w 24 mod 256; Z.shiftr w 16 mod 256; Z.shiftr w 8 mod 256; w mod 256].

Definition byte_of (z : Z) : byte :=
  match Byte.of_N (Z.to_N z) with
  | Some b => b
  | None => "000"%byte
  end.

Definition digest (message : list byte) : list byte :=
  let padded := pad (map (fun b => Z.of_N (Byte.to_N b)) message) in
  let s := blocks (length padded / 64) padded initial in
  map byte_of
    (word_bytes (ha s) ++ word_bytes (hb s) ++ word_bytes (hc s) ++ word_bytes (hd s)
     ++ word_bytes (he s) ++ word_bytes (hf s) ++ word_bytes (hg s) ++ word_bytes (hh s)).

End Sha256.

Definition node_crypto : Crypto := {| sha256 := Sha256.digest |}.

(** ** Vocabulary of the properties *)

(** [s.includes(c)] for a character [c]. *)
Fixpoint has_char (c : ascii) (s : string) : bool :=
  match s with
  | EmptyString => false
  | String x rest => Ascii.eqb x c || has_char c rest
  end.

(** The alphabet of base64url: letters, digits, [-] and [_]. *)
Definition is_base64url_char (c : ascii) : bool :=
  let n := nat_of_ascii c in
  ((65 <=? n) && (n <=? 90) || (97 <=? n) && (n <=? 122)
   || (48 <=? n) && (n <=? 57) || (n =? 45) || (n =? 95))%nat.

Fixpoint all_chars (p : ascii -> bool) (s : string) : bool :=
  match s with
  | EmptyString => true
  | String c rest => p c && all_chars p rest
  end.

(** The number of characters that encode [n] bytes without padding. *)
Fixpoint base64url_length (n : nat) : nat :=
  match n with
  | O => 0
  | 1 => 2
  | 2 => 3
  | S (S (S m)) => 4 + base64url_length m
  end%nat.

(** What the three replacements of [base64UrlEncode] make of a character
    other than [=]. *)
Definition url_char (c : ascii) : ascii :=
  if Ascii.eqb c "+" then "-"%char
  else if Ascii.eqb c "/" then "_"%char
  else c.

(** ** The rest of auth/pkce.ts, auth/oauth.ts, auth/tokenManager.ts and
    auth/middleware.ts, with core/result.ts and the header builder of
    http/client.ts *)

(** [s.length]: the number of UTF-16 code units of the string whose UTF-8
    image is [s]. A byte below 128 or a lead byte of a sequence of two or
    three bytes is one unit, a lead byte of a sequence of four bytes is two
    (a surrogate pair), a continuation byte is none. *)
Definition utf16_units (c : ascii) : nat :=
  let n := nat_of_ascii c in
  if (n <? 128)%nat then 1%nat
  else if (n <? 192)%nat then 0%nat
  else if (n <? 240)%nat then 1%nat
  else 2%nat.

Fixpoint js_length (s : string) : nat :=
  match s with
  | EmptyString => 0%nat
  | String c rest => (utf16_units c + js_length rest)%nat
  end.

(** *** core/result.ts *)

Module Res.

Definition map {T U E} (fn : T -> U) (result : Result T E) : Result U E :=
  match result with
  | Ok value => Ok (fn value)
  | Err error => Err error
  end.

Definition flatMap {T U E} (fn : T -> Result U E) (result : Result T E)
    : Result U E :=
  match result with
  | Ok value => fn value
  | Err error => Err error
  end.

Definition mapErr {T E F} (fn : E -> F) (result : Result T E) : Result T F :=
  match result with
  | Ok value => Ok value
  | Err error => Err (fn error)
  end.

Definition getOrElse {T E} (defaultValue : T) (result : Result T E) : T :=
  match result with
  | Ok value => value
  | Err _ => defaultValue
  end.

Definition fold {T E U} (onErr : E -> U) (onOk : T -> U) (result : Result T E) : U :=
  match result with
  | Ok value => onOk value
  | Err error => onErr error
  end.

(** The loop of [sequence]: [values] is the array filled so far. *)
Fixpoint sequence_from {T E} (values : list T) (results : list (Result T E))
    : Result (list T) E :=
  match results with
  | [] => Ok values
  | result :: rest =>
      match result with
      | Err error => Err error
      | Ok value => sequence_from (values ++ [value]) rest
      end
  end.

Definition sequence {T E} (results : list (Result T E)) : Result (list T) E :=
  sequence_from [] results.

Definition traverse {T U E} (fn : T -> Result U E) (items : list T)
    : Result (list U) E :=
  sequence (List.map fn items).

(** [value != null] *)
Definition fromNullable {T E} (error : E) (value : option T) : Result T E :=
  match value with
  | Some value => Ok value
  | None => Err error
  end.

End Res.

(** *** auth/pkce.ts *)

Definition CODE_VERIFIER_LENGTH : nat := 64.

Definition CODE_VERIFIER_CHARSET : string :=
  "ABCDEFGHIJKLMNOPQRSTUVWXYZabcdefghijklmnopqrstuvwxyz0123456789-._~".

(** [CODE_VERIFIER_CHARSET[bytes[i] % CODE_VERIFIER_CHARSET.length]] *)
Definition verifier_char (b : byte) : ascii :=
  nth (N.to_nat (Byte.to_N b) mod String.length CODE_VERIFIER_CHARSET)
      (list_ascii_of_string CODE_VERIFIER_CHARSET) "A"%char.

(** [bytes] is what [randomBytes(CODE_VERIFIER_LENGTH)] returned. The loop
    reads its first 64 entries; an entry that is not there gives
    [undefined], which [join] writes as nothing. *)
Definition generateCodeVerifier (bytes : list byte) : string :=
  string_of_list_ascii (List.map verifier_char (firstn CODE_VERIFIER_LENGTH bytes)).

(** [verifierBytes] is what [randomBytes] returned to [generateCodeVerifier]. *)
Definition generatePkceParams `{Crypto} (verifierBytes : list byte) : PkceParams :=
  let codeVerifier := generateCodeVerifier verifierBytes in
  let codeChallenge := computeCodeChallenge codeVerifier in
  {| codeVerifier := codeVerifier;
     codeChallenge := codeChallenge;
     codeChallengeMethod := S256 |}.

(** The class [[A-Za-z0-9\-._~]]. *)
Definition is_unreserved_char (c : ascii) : bool :=
  let n := nat_of_ascii c in
  ((65 <=? n) && (n <=? 90) || (97 <=? n) && (n <=? 122)
   || (48 <=? n) && (n <=? 57)
   || (n =? 45) || (n =? 46) || (n =? 95) || (n =? 126))%nat.

(** [/^[class]+$/.test(s)]: one character at least, and every one in the
    class. A byte of a character outside ASCII is in none of the classes. *)
Definition matches_all (class : ascii -> bool) (s : string) : bool :=
  negb (String.eqb s "") && all_chars class s.

Definition isValidCodeVerifier (verifier : string) : bool :=
  if (js_length verifier <? 43)%nat || (128 <? js_length verifier)%nat then false
  else matches_all is_unreserved_char verifier.

Definition isValidCodeChallenge (challenge : string) : bool :=
  if negb (js_length challenge =? 43)%nat then false
  else matches_all is_base64url_char challenge.

(** [bytes] is what [randomBytes(32)] returned. *)
Definition generateState (bytes : list byte) : string := base64UrlEncode bytes.

Definition generateNonce (bytes : list byte) : string := base64UrlEncode bytes.

(** *** auth/oauth.ts *)

(** [stateBytes] and [verifierBytes] are what [randomBytes] returned to
    [generateState] and to [generateCodeVerifier], [now] what [Date.now()]
    returned. *)
Definition createAuthorizationState `{Crypto} (stateBytes verifierBytes : list byte)
    (now : Z) (redirectUri : string) : AuthorizationState :=
  {| auth_state := generateState stateBytes;
     auth_pkce := generatePkceParams verifierBytes;
     redirectUri := redirectUri;
     createdAt := now |}.

Definition buildClientCredentialsBody (config : OAuthConfig) : gmap string string :=
  let body : gmap string string :=
    <["grant_type" := "client_credentials"]>
      (<["client_id" := clientId config]>
        (<["client_secret" := clientSecret config]> ∅)) in
  let body :=
    if (0 <? length (scopes config))%nat
    then <["scope" := Js.join " " (scopes config)]> body
    else body in
  body.

Definition validateOAuthConfig `{UrlApi} (config : OAuthConfig)
    : Result OAuthConfig OAuthError :=
  if negb (Js.truthy_string (Some (clientId config))) then
    Err (oauthError "Missing clientId in OAuth configuration" None None)
  else if negb (Js.truthy_string (Some (authorizationUrl config))) then
    Err (oauthError "Missing authorizationUrl in OAuth configuration" None None)
  else if negb (Js.truthy_string (Some (tokenUrl config))) then
    Err (oauthError "Missing tokenUrl in OAuth configuration" None None)
  else
    match parseUrl (authorizationUrl config) with
    | None => Err (oauthError "Invalid URL in OAuth configuration" None None)
    | Some _ =>
        match parseUrl (tokenUrl config) with
        | None => Err (oauthError "Invalid URL in OAuth configuration" None None)
        | Some _ => Ok config
        end
    end.

(** [None] is an exception leaving the function: [buildAuthorizationUrl] is
    not called in a [try]. *)
Definition initializeAuthFlow `{UrlApi} `{Crypto}
    (stateBytes verifierBytes : list byte) (now : Z)
    (config : OAuthConfig) (redirectUri : string)
    : option (Result (URL * AuthorizationState) OAuthError) :=
  let validationResult := validateOAuthConfig config in
  match validationResult with
  | Err error => Some (Err error)
  | Ok _ =>
      let state := createAuthorizationState stateBytes verifierBytes now redirectUri in
      match buildAuthorizationUrl config state with
      | None => None
      | Some url => Some (Ok (url, state))
      end
  end.

(** *** auth/tokenManager.ts *)

(** [Math.max(a, b)] *)
Definition js_max (a b : Js.number) : Js.number :=
  match a, b with
  | Js.Num x, Js.Num y => Js.Num (Z.max x y)
  | _, _ => Js.NaN
  end.

Definition getTimeUntilExpiry (now : Z) (token : TokenSet) : option Js.number :=
  match expiresAt token with
  | None => None
  | Some expires =>
      if negb (Js.truthy_number expires) then None
      else Some (js_max (Js.Num 0) (Js.sub expires (Js.Num now)))
  end.


(** *** auth/middleware.ts *)

Definition createSimpleValidator : TokenValidator :=
  fun token =>
    if negb (Js.truthy_string (Some token)) || (js_length token <? 10)%nat then
      Err (oauthError "Invalid token format" None None)
    else
      Ok {| accessToken := token; tokenType := "Bearer";
            expiresAt := None; refreshToken := None; scope := None |}.

(** A request with its other headers: [req.headers], keyed by the
    lower-case names Node gives them, maps ["authorization"] to the field
    of the request and every other name through [other_headers]. Header
    names are HTTP tokens, hence ASCII, where [Js.toLowerCase] is exact. *)
Record HttpRequest := mkHttpRequest {
  request : Request;
  other_headers : gmap string string;
}.

Definition header (name : string) (req : HttpRequest) : option string :=
  if String.eqb name "authorization" then authorization (request req)
  else other_headers req !! name.

Inductive HttpHandled :=
| HttpResponded (res : Response)
| HttpNext (req : HttpRequest).

(** A handler that reads and writes the request of the token middleware
    only, run on the whole request. *)
Definition on_request (handler : Request -> Handled) (req : HttpRequest)
    : HttpHandled :=
  match handler (request req) with
  | Responded res => HttpResponded res
  | Next req' => HttpNext (mkHttpRequest req' (other_headers req))
  end.

Definition createApiKeyMiddleware (validApiKeys : gset string)
    (headerName : option string) (req : HttpRequest) : HttpHandled :=
  let headerName := default "X-API-Key" headerName in
  let apiKey := header (Js.toLowerCase headerName) req in
  if negb (Js.truthy_string apiKey) then
    HttpResponded
      (mkResponse 401 "unauthorized" ("Missing " +:+ headerName +:+ " header"))
  else if negb (bool_decide (default "" apiKey ∈ validApiKeys)) then
    HttpResponded (mkResponse 401 "invalid_api_key" "Invalid API key")
  else HttpNext req.

Inductive AuthConfig :=
| OAuth2Config (oauth : OAuthConfig)
| ApiKeyConfig (key : string) (headerName : option string)
    (queryParamName : option string)
| BearerConfig (token : string).

Definition createFlexibleAuthMiddleware (config : AuthConfig)
    (validator : option TokenValidator) (req : HttpRequest) : HttpHandled :=
  match config with
  | OAuth2Config _ =>
      on_request (createAuthMiddleware (default createSimpleValidator validator)) req
  | ApiKeyConfig key headerName _ =>
      createApiKeyMiddleware {[ key ]} headerName req
  | BearerConfig expected =>
      on_request
        (createAuthMiddleware
           (fun token =>
              if String.eqb token expected then
                Ok {| accessToken := token; tokenType := "Bearer";
                      expiresAt := None; refreshToken := None; scope := None |}
              else Err (oauthError "Invalid bearer token" None None)))
        req
  end.

(** *** http/client.ts *)

Definition buildRequestHeaders (baseHeaders : gmap string string)
    (token : option TokenSet) : gmap string string :=
  let headers := baseHeaders in
  match token with
  | Some token => <["Authorization" := createAuthHeader token]> headers
  | None => headers
  end.

(** The 256 bytes, and the place of a character in the alphabet of
    base64url, for arguments by enumeration. *)
Definition all_bytes : list byte :=
  List.map (fun n => Sha256.byte_of (Z.of_nat n)) (seq 0 256).

Fixpoint index_of (c : ascii) (alphabet : list ascii) : nat :=
  match alphabet with
  | [] => 0%nat
  | x :: rest => if Ascii.eqb x c then 0%nat else S (index_of c rest)
  end.

Definition url_index (c : ascii) : nat :=
  index_of c (List.map url_char base64_alphabet).

(** ** Instances for evaluation *)

(** A run time for payloads typed as the token endpoint declares them: on
    those no conversion is reached, so the values given here are never
    looked at. *)
Definition typed_runtime : Js.Runtime :=
  {| Js.StringOf := fun _ => "";
     Js.NumberOf := fun _ => Js.NaN;
     Js.ill_typed := fun _ => "" |}.

(** A stored token [{accessToken: "abc", tokenType: "Bearer", expiresAt,
    refreshToken}]. *)
Definition sample_token (expires : option Js.number) (refresh : option string)
    : TokenSet :=
  {| accessToken := "abc"; tokenType := "Bearer"; expiresAt := expires;
     refreshToken := refresh; scope := None |}.


Definition error_payload : Js.value :=
  Js.Object [("error", Js.Str "invalid_grant");
             ("error_description", Js.Str "x")].





(** A manager whose token endpoint answers every request, after 120 ms,
    with [{access_token: "xyz", expires_in: 3600}] and no [refresh_token]. *)
Definition sample_config : OAuthConfig :=
  {| clientId := "c1"; clientSecret := "s3cret";
     authorizationUrl := "https://auth/authorize";
     tokenUrl := "https://auth/token";
     scopes := ["read"]; pkce := Some true; config_redirectUri := None |}.

Definition refreshed_payload : Js.value :=
  Js.Object [("access_token", Js.Str "xyz");
             ("expires_in", Js.Number (Js.Num 3600))].

Definition sample_manager : TokenManagerState :=
  {| config := sample_config;
     httpFetch := fun _ => (Json refreshed_payload, 120) |}.

(** A manager whose token endpoint cannot be reached. *)
Definition offline_manager : TokenManagerState :=
  {| config := sample_config;
     httpFetch := fun _ => (Rejected (ThrownError "connect ECONNREFUSED"), 30) |}.

(** The world at time [now] with [token] stored under ["u1"] and nothing
    sent yet. *)
Definition world_with (now : Z) (token : TokenSet) : World :=
  {| store := {[ "u1" := token ]}; clock := now; fetched := [] |}.

Definition empty_world (now : Z) : World :=
  {| store := ∅; clock := now; fetched := [] |}.

(** Requests with a header only, with a query parameter only, and a
    validator that accepts every token. *)
Definition header_request (authHeader : string) : Request :=
  {| authorization := Some authHeader; access_token := Js.Undefined; token := None |}.

Definition query_request (queryToken : Js.value) : Request :=
  {| authorization := None; access_token := queryToken; token := None |}.

Definition accept_all : TokenValidator :=
  fun token => Ok {| accessToken := token; tokenType := "Bearer";
                     expiresAt := None; refreshToken := None; scope := None |}.

Definition reject_all : TokenValidator :=
  fun _ => Err (oauthError "Invalid token format" None None).

(** A request that went through authentication with a token of the given
    scope. *)
Definition authenticated_request (scope : option string) : Request :=
  {| authorization := Some "Bearer t0ken"; access_token := Js.Undefined;
     token := Some {| accessToken := "t0ken"; tokenType := "Bearer";
                      expiresAt := None; refreshToken := None; scope := scope |} |}.

(** The URL API on the addresses of the examples: an authorization
    endpoint without a query, and one whose address carries
    [?scope=openid]. Every other string is refused. *)
Definition example_urls : UrlApi :=
  {| parseUrl := fun address =>
       if String.eqb address "https://auth/authorize" then
         Some (mkURL "https://auth/authorize" [] "")
       else if String.eqb address "https://auth.example.com/authorize?scope=openid" then
         Some (mkURL "https://auth.example.com/authorize" [("scope", "openid")] "")
       else None |}.

Definition sample_state : AuthorizationState :=
  {| auth_state := "st4te";
     auth_pkce := {| codeVerifier := "dBjftJeZ4CVP-mB92K27uhbUJU1p1r_wW1gFWFOEjXk";
                     codeChallenge := "E9Melhoa2OwvFrEMTJguCHaoeK1t8URWbuGJSstw-cM";
                     codeChallengeMethod := S256 |};
     redirectUri := "https://app/cb";
     createdAt := 1000 |}.

(** A configuration with no scopes and PKCE switched off, whose
    authorization endpoint already has a [scope] in its address. *)
Definition scoped_endpoint_config : OAuthConfig :=
  {| clientId := "c1"; clientSecret := "s3cret";
     authorizationUrl := "https://auth.example.com/authorize?scope=openid";
     tokenUrl := "https://auth.example.com/token";
     scopes := []; pkce := Some false; config_redirectUri := None |}.

(** Sixty-four bytes for a verifier and thirty-two for a state, as
    [randomBytes] could return them. *)
Definition sample_verifier_bytes : list byte :=
  List.map (fun i => Sha256.byte_of (Z.of_nat ((7 * i + 3) mod 256))) (seq 0 64).

Definition sample_state_bytes : list byte :=
  List.map (fun i => Sha256.byte_of (Z.of_nat ((11 * i + 5) mod 256))) (seq 0 32).

(** * Properties *)

(** ** Expiry rule *)

Section Expiry.

Variables (now : Z) (token : TokenSet) (bufferMs : option Z).

Lemma isTokenExpired_no_expiresAt :
  expiresAt token = None -> isTokenExpired now token bufferMs = false.
Proof. unfold isTokenExpired. intros ->. reflexivity. Qed.

Lemma isTokenExpired_falsy (e : Js.number) :
  expiresAt token = Some e -> Js.truthy_number e = false ->
  isTokenExpired now token bufferMs = false.
Proof. unfold isTokenExpired. intros -> ->. reflexivity. Qed.

Lemma isTokenExpired_nonzero (e : Z) :
  expiresAt token = Some (Js.Num e) -> e <> 0 ->
  isTokenExpired now token bufferMs
  = (e - default 30000 bufferMs <=? now).
Proof.
  unfold isTokenExpired. intros -> He. cbn.
  destruct (Z.eqb_spec e 0) as [E|_]; [contradiction | reflexivity].
Qed.

End Expiry.

(** C4, as the code has it: a token with no [expiresAt] is never expired,
    and a token whose [expiresAt] is a number other than zero is expired
    exactly when [now >= expiresAt - bufferMs], where an omitted [bufferMs]
    is 30000. *)
Theorem isTokenExpired_rule (now : Z) (token : TokenSet) (bufferMs : option Z) :
  (expiresAt token = None -> isTokenExpired now token bufferMs = false) /\
  (forall e : Z, expiresAt token = Some (Js.Num e) -> e <> 0 ->
     (isTokenExpired now token bufferMs = true
      <-> now >= e - default 30000 bufferMs)).
Proof.
  split.
  - apply isTokenExpired_no_expiresAt.
  - intros e He Hnz. rewrite (isTokenExpired_nonzero now token bufferMs e He Hnz).
    rewrite Z.leb_le. lia.
Qed.

Lemma isTokenExpired_rule_witness :
  isTokenExpired 1000 (sample_token None None) None = false /\
  (isTokenExpired 70001 (sample_token (Some (Js.Num 100000)) None) None = true
   <-> 70001 >= 100000 - 30000) /\
  (isTokenExpired 69999 (sample_token (Some (Js.Num 100000)) None) None = true
   <-> 69999 >= 100000 - 30000) /\
  (isTokenExpired 95000 (sample_token (Some (Js.Num 100000)) None) (Some 5000) = true
   <-> 95000 >= 100000 - 5000).
Proof.
  split; [| split; [| split]].
  - apply (proj1 (isTokenExpired_rule 1000 (sample_token None None) None)). reflexivity.
  - apply (proj2 (isTokenExpired_rule 70001 (sample_token (Some (Js.Num 100000)) None) None) 100000);
      [reflexivity | lia].
  - apply (proj2 (isTokenExpired_rule 69999 (sample_token (Some (Js.Num 100000)) None) None) 100000);
      [reflexivity | lia].
  - apply (proj2 (isTokenExpired_rule 95000 (sample_token (Some (Js.Num 100000)) None) (Some 5000)) 100000);
      [reflexivity | lia].
Defined.

(** C4 as written fails on the time stamp zero: the token carries an
    [expiresAt], [now >= expiresAt - bufferMs] holds, and the token is not
    considered expired. *)
Lemma isTokenExpired_zero_counterexample :
  expiresAt (sample_token (Some (Js.Num 0)) None) = Some (Js.Num 0) /\
  1700000000000 >= 0 - 30000 /\
  isTokenExpired 1700000000000 (sample_token (Some (Js.Num 0)) None) None = false.
Proof. split; [reflexivity | split; [lia | reflexivity]]. Qed.

(** ** Token responses *)

Section ParseTokenResponse.

Context `{rt : Js.Runtime}.
Variables (now : Z) (response : Js.value).


Hypothesis response_object :
  Js.truthy response && Js.typeof_object response = true.





End ParseTokenResponse.




(** ** Token lifecycle *)

Section GetValidToken.

Context `{rt : Js.Runtime}.
Variables (state : TokenManagerState) (key : string) (w : World).

Lemma getValidToken_not_found :
  store w !! key = None ->
  getValidToken state key w
  = (Err (tokenError "Token not found" (Some key)), w).
Proof.
  intros Hget. unfold getValidToken, getToken, storage_get, bind, ret.
  rewrite Hget. reflexivity.
Qed.

Lemma getValidToken_unexpired (token : TokenSet) :
  store w !! key = Some token ->
  isTokenExpired (clock w) token None = false ->
  getValidToken state key w = (Ok token, w).
Proof.
  intros Hget Hfresh.
  unfold getValidToken, getToken, storage_get, dateNow, bind, ret.
  rewrite Hget, Hfresh. reflexivity.
Qed.

Lemma getValidToken_no_refresh_token (token : TokenSet) :
  store w !! key = Some token ->
  isTokenExpired (clock w) token None = true ->
  refreshToken token = None ->
  getValidToken state key w
  = (Err (tokenError "Token expired and no refresh token available" None), w).
Proof.
  intros Hget Hexpired Hnone.
  unfold getValidToken, getToken, storage_get, dateNow, canRefreshToken, bind, ret.
  rewrite Hget, Hexpired, Hnone. reflexivity.
Qed.

(** The refresh path: the request is made, and its result decides. *)
Lemma getValidToken_refresh (token : TokenSet) (r : string) :
  store w !! key = Some token ->
  isTokenExpired (clock w) token None = true ->
  refreshToken token = Some r ->
  getValidToken state key w
  = match refreshTokenRequest state r w with
    | (Err e, w') => (Err e, w')
    | (Ok newToken, w') =>
        (Ok newToken,
         mkWorld (<[key := newToken]> (store w')) (clock w') (fetched w'))
    end.
Proof.
  intros Hget Hexpired Hsome.
  unfold getValidToken, getToken, storage_get, dateNow, canRefreshToken.
  unfold bind at 1 2. unfold ret at 1. rewrite Hget.
  unfold bind at 1. rewrite Hexpired, Hsome.
  change (default "" (Some r)) with r. cbn [negb].
  unfold bind at 1.
  destruct (refreshTokenRequest state r w) as [[newToken | e] w']; reflexivity.
Qed.

(** A refresh sends one request, lets time pass, and leaves the store. *)
Lemma refreshTokenRequest_world (r : string) :
  let request :=
    mkFetchRequest (tokenUrl (config state)) "POST"
      [("Content-Type", "application/x-www-form-urlencoded")]
      (buildRefreshTokenBody (config state) r) in
  let w' := snd (refreshTokenRequest state r w) in
  store w' = store w /\
  fetched w' = request :: fetched w /\
  clock w' = clock w + snd (httpFetch state request).
Proof.
  cbn zeta. unfold refreshTokenRequest, tryCatchAsync, fetch_json, dateNow, bind, ret.
  destruct (httpFetch state _) as [[e | data] elapsed]; cbn.
  - repeat split.
  - destruct (parseTokenResponse _ data); cbn; repeat split.
Qed.

(** A refresh that succeeds: the token parsed from the answer of the
    endpoint is stored under the key and returned, as it is. *)
Lemma getValidToken_refresh_stores_response
    (token fresh : TokenSet) (r : string) (data : Js.value) (elapsed : Z) :
  let request :=
    mkFetchRequest (tokenUrl (config state)) "POST"
      [("Content-Type", "application/x-www-form-urlencoded")]
      (buildRefreshTokenBody (config state) r) in
  store w !! key = Some token ->
  isTokenExpired (clock w) token None = true ->
  refreshToken token = Some r ->
  httpFetch state request = (Json data, elapsed) ->
  parseTokenResponse (clock w + elapsed) data = Ok fresh ->
  getValidToken state key w
  = (Ok fresh,
     mkWorld (<[key := fresh]> (store w)) (clock w + elapsed)
             (request :: fetched w)).
Proof.
  cbn zeta. intros Hget Hexpired Hsome Hfetch Hparse.
  rewrite (getValidToken_refresh token r Hget Hexpired Hsome).
  unfold refreshTokenRequest, tryCatchAsync, fetch_json, dateNow, bind, ret.
  rewrite Hfetch. cbn [clock store fetched]. rewrite Hparse. reflexivity.
Qed.

End GetValidToken.

(** C2, as the code has it. A stored token that the expiry rule does not
    count as expired, having no [expiresAt] or one with
    [now < expiresAt - 30000], is returned as it is. A stored token whose
    [expiresAt] is not zero, with [now >= expiresAt - 30000], and which has
    no refresh token fails with "Token expired and no refresh token
    available". With nothing stored under the key the call fails with
    "Token not found". In the three cases the world is left as it was: no
    request is sent. *)
Theorem getValidToken_without_refresh `{rt : Js.Runtime}
    (state : TokenManagerState) (key : string) (w : World) :
  (forall token,
     store w !! key = Some token ->
     expiresAt token = None \/
     expiresAt token = Some Js.NaN \/
     (exists e, expiresAt token = Some (Js.Num e) /\ clock w < e - 30000) ->
     getValidToken state key w = (Ok token, w)) /\
  (forall token e,
     store w !! key = Some token ->
     expiresAt token = Some (Js.Num e) -> e <> 0 ->
     clock w >= e - 30000 ->
     refreshToken token = None ->
     exists error,
       getValidToken state key w = (Err error, w) /\
       token_message error = "Token expired and no refresh token available") /\
  (store w !! key = None ->
   exists error,
     getValidToken state key w = (Err error, w) /\
     token_message error = "Token not found").
Proof.
  split; [| split].
  - intros token Hget Hrule. apply getValidToken_unexpired; [exact Hget |].
    destruct Hrule as [Hnone | [Hnan | (e & He & Hlt)]].
    + apply isTokenExpired_no_expiresAt, Hnone.
    + apply (isTokenExpired_falsy _ _ _ Js.NaN Hnan). reflexivity.
    + destruct (Z.eq_dec e 0) as [-> | Hnz].
      * apply (isTokenExpired_falsy _ _ _ (Js.Num 0) He). reflexivity.
      * rewrite (isTokenExpired_nonzero _ _ _ e He Hnz). cbn [default].
        apply Z.leb_gt. lia.
  - intros token e Hget He Hnz Hrule Hnone. eexists. split.
    + apply (getValidToken_no_refresh_token state key w token Hget); [| exact Hnone].
      rewrite (isTokenExpired_nonzero _ _ _ e He Hnz). cbn [default].
      apply Z.leb_le. lia.
    + reflexivity.
  - intros Hget. eexists. split.
    + exact (getValidToken_not_found state key w Hget).
    + reflexivity.
Qed.

Lemma getValidToken_without_refresh_witness :
  @getValidToken typed_runtime offline_manager "u1"
     (world_with 10000 (sample_token (Some (Js.Num 50000)) (Some "r1")))
  = (Ok (sample_token (Some (Js.Num 50000)) (Some "r1")),
     world_with 10000 (sample_token (Some (Js.Num 50000)) (Some "r1"))) /\
  (exists error,
     @getValidToken typed_runtime offline_manager "u1"
        (world_with 10000 (sample_token (Some (Js.Num 9000)) None))
     = (Err error, world_with 10000 (sample_token (Some (Js.Num 9000)) None)) /\
     token_message error = "Token expired and no refresh token available") /\
  (exists error,
     @getValidToken typed_runtime offline_manager "u1" (empty_world 10000)
     = (Err error, empty_world 10000) /\
     token_message error = "Token not found").
Proof.
  split; [| split].
  - apply (proj1 (@getValidToken_without_refresh typed_runtime offline_manager "u1"
                    (world_with 10000 (sample_token (Some (Js.Num 50000)) (Some "r1")))));
      [reflexivity |].
    right. right. exists 50000. split; [reflexivity | cbn; lia].
  - apply (proj1 (proj2 (@getValidToken_without_refresh typed_runtime offline_manager "u1"
                    (world_with 10000 (sample_token (Some (Js.Num 9000)) None))))
             (sample_token (Some (Js.Num 9000)) None) 9000);
      [reflexivity | reflexivity | lia | cbn; lia | reflexivity].
  - apply (proj2 (proj2 (@getValidToken_without_refresh typed_runtime offline_manager "u1"
                    (empty_world 10000))));
      reflexivity.
Defined.

(** C2 as written fails on a stored token [{expiresAt: 0}] without a refresh
    token: [now >= expiresAt - 30000] holds, so the rule counts it as
    expired and the claim has the call fail, and [getValidToken] returns
    the token. *)
Lemma getValidToken_zero_expiresAt_counterexample :
  let token := sample_token (Some (Js.Num 0)) None in
  let w := world_with 1700000000000 token in
  store w !! "u1" = Some token /\
  expiresAt token = Some (Js.Num 0) /\
  clock w >= 0 - 30000 /\
  refreshToken token = None /\
  @getValidToken typed_runtime offline_manager "u1" w = (Ok token, w).
Proof.
  cbn zeta. split; [reflexivity |]. split; [reflexivity |].
  split; [cbn; lia |]. split; reflexivity.
Qed.

(** C9: when [getValidToken] returns an error, the store is the one it
    started from; the store is written on the successful refresh only. *)
Theorem getValidToken_error_keeps_store `{rt : Js.Runtime}
    (state : TokenManagerState) (key : string) (w w' : World) (e : TokenError) :
  getValidToken state key w = (Err e, w') ->
  store w' = store w.
Proof.
  destruct (store w !! key) as [token |] eqn:Hget.
  2: { rewrite (getValidToken_not_found state key w Hget). congruence. }
  destruct (isTokenExpired (clock w) token None) eqn:Hexpired.
  2: { rewrite (getValidToken_unexpired state key w token Hget Hexpired). discriminate. }
  destruct (refreshToken token) as [r |] eqn:Hrefresh.
  2: { rewrite (getValidToken_no_refresh_token state key w token Hget Hexpired Hrefresh).
       congruence. }
  rewrite (getValidToken_refresh state key w token r Hget Hexpired Hrefresh).
  destruct (refreshTokenRequest_world state w r) as (Hstore & _).
  destruct (refreshTokenRequest state r w) as [[newToken | e1] w1]; [discriminate |].
  intros [= _ <-]. exact Hstore.
Qed.

Lemma getValidToken_error_keeps_store_witness :
  let w := world_with 10000 (sample_token (Some (Js.Num 9000)) (Some "r1")) in
  let result := @getValidToken typed_runtime offline_manager "u1" w in
  fst result = Err (tokenError "connect ECONNREFUSED" None) /\
  length (fetched (snd result)) = 1%nat /\
  store (snd result) = store w.
Proof.
  cbn zeta. split; [reflexivity |]. split; [reflexivity |].
  apply (@getValidToken_error_keeps_store typed_runtime offline_manager "u1"
           (world_with 10000 (sample_token (Some (Js.Num 9000)) (Some "r1")))
           _ (tokenError "connect ECONNREFUSED" None)).
  reflexivity.
Defined.

(** C1 does not hold of the code: the refreshed token is stored and
    returned as the endpoint gave it, without [mergeTokens]. With
    [{accessToken: "abc", expiresAt: 9000, refreshToken: "r1"}] stored at
    time 10000 and the endpoint answering
    [{access_token: "xyz", expires_in: 3600}], one request is sent, and the
    token returned and stored has no refresh token, where the merged token
    keeps ["r1"]. *)
Theorem getValidToken_refresh_drops_refreshToken :
  let old := sample_token (Some (Js.Num 9000)) (Some "r1") in
  let result := @getValidToken typed_runtime sample_manager "u1" (world_with 10000 old) in
  exists fresh,
    fst result = Ok fresh /\
    store (snd result) !! "u1" = Some fresh /\
    length (fetched (snd result)) = 1%nat /\
    accessToken fresh = "xyz" /\
    refreshToken fresh = None /\
    refreshToken (mergeTokens old fresh) = Some "r1" /\
    fresh <> mergeTokens old fresh.
Proof.
  cbn zeta. eexists. split; [reflexivity |].
  repeat (split; [reflexivity |]). discriminate.
Qed.

(** ** Authorization-code exchange *)

Lemma lookup_pkceToTokenParams (verifier k : string) (body : gmap string string) :
  (pkceToTokenParams verifier ∪ body) !! k
  = if decide (k = "code_verifier") then Some verifier else body !! k.
Proof.
  unfold pkceToTokenParams. rewrite lookup_union.
  destruct (decide (k = "code_verifier")) as [-> | Hne].
  - rewrite lookup_singleton_eq. destruct (body !! "code_verifier"); reflexivity.
  - rewrite lookup_singleton_ne by congruence.
    destruct (body !! k); reflexivity.
Qed.

(** C7: the body has [grant_type] "authorization_code", the given [code],
    the [redirect_uri] of the state and the [client_id] of the
    configuration; [client_secret] exactly when the configuration has a
    (non-empty) secret; [code_verifier] exactly when [pkce] is not [false],
    and then the verifier of the given state; and nothing else. *)
Theorem buildTokenRequestBody_fields (config : OAuthConfig) (code : string)
    (state : AuthorizationState) :
  let body := buildTokenRequestBody config code state in
  body !! "grant_type" = Some "authorization_code" /\
  body !! "code" = Some code /\
  body !! "redirect_uri" = Some (redirectUri state) /\
  body !! "client_id" = Some (clientId config) /\
  body !! "client_secret"
  = (if String.eqb (clientSecret config) "" then None
     else Some (clientSecret config)) /\
  body !! "code_verifier"
  = match pkce config with
    | Some false => None
    | _ => Some (codeVerifier (auth_pkce state))
    end /\
  (forall k, is_Some (body !! k) ->
     k ∈ ["grant_type"; "code"; "redirect_uri"; "client_id";
          "client_secret"; "code_verifier"]).
Proof.
  cbn zeta. unfold buildTokenRequestBody, pkce_not_false, Js.truthy_string.
  destruct (String.eqb (clientSecret config) "");
    destruct (pkce config) as [[|]|]; cbn [negb];
    repeat split;
    try (rewrite ?lookup_pkceToTokenParams; simplify_map_eq; reflexivity);
    intros k; rewrite ?lookup_pkceToTokenParams;
    repeat (case_decide; [subst; intros _; set_solver |]);
    repeat (rewrite lookup_insert; case_decide; [subst; intros _; set_solver |]);
    rewrite lookup_empty; intros [? ?]; discriminate.
Qed.

(** ** Credentials of a request *)

Lemma split_without_separator (sep : ascii) (s : string) :
  has_char sep s = false -> Js.split sep s = [s].
Proof.
  induction s as [| c rest IH]; cbn [Js.split has_char]; [reflexivity |].
  intros H. apply orb_false_elim in H as [Hc Hrest].
  rewrite Hc, (IH Hrest). reflexivity.
Qed.

Lemma split_at_separator (sep : ascii) (s1 s2 : string) :
  has_char sep s1 = false ->
  Js.split sep (s1 +:+ String sep s2) = s1 :: Js.split sep s2.
Proof.
  induction s1 as [| c rest IH]; cbn [has_char].
  - intros _. change ("" +:+ String sep s2) with (String sep s2).
    cbn [Js.split]. rewrite Ascii.eqb_refl. reflexivity.
  - intros H. apply orb_false_elim in H as [Hc Hrest].
    change (String c rest +:+ String sep s2)
      with (String c (rest +:+ String sep s2)).
    cbn [Js.split]. rewrite Hc, (IH Hrest). reflexivity.
Qed.

Lemma extractBearerToken_accepts (scheme credentials : string) :
  Js.toLowerCase scheme = "bearer" ->
  has_char " " scheme = false -> has_char " " credentials = false ->
  extractBearerToken (Some (scheme +:+ " " +:+ credentials)) = Some credentials.
Proof.
  intros Hlower Hscheme Hcred. unfold extractBearerToken.
  change (" " +:+ credentials) with (String " " credentials).
  rewrite (split_at_separator " " scheme credentials Hscheme).
  rewrite (split_without_separator " " credentials Hcred).
  cbn [length Nat.eqb negb nth]. rewrite Hlower. cbn [String.eqb negb].
  destruct scheme as [| c rest]; [discriminate Hlower | reflexivity].
Qed.

Lemma extractBearerToken_parts (authHeader : string) :
  length (Js.split " " authHeader) <> 2%nat ->
  extractBearerToken (Some authHeader) = None.
Proof.
  intros Hparts. unfold extractBearerToken.
  destruct (negb (Js.truthy_string (Some authHeader))); [reflexivity |].
  destruct (Nat.eqb_spec (length (Js.split " " authHeader)) 2); [contradiction |].
  reflexivity.
Qed.

Lemma extractToken_fallback (req : Request) :
  extractBearerToken (authorization req) = None \/
  extractBearerToken (authorization req) = Some "" ->
  extractToken req
  = match access_token req with
    | Js.Str queryToken => Some queryToken
    | _ => None
    end.
Proof.
  unfold extractToken. intros [-> | ->]; reflexivity.
Qed.

(** C10: the scheme is compared without regard to case, a header that does
    not split at its spaces into exactly two parts gives nothing, and
    [extractToken] then reads the [access_token] query parameter, as it
    does for the header "Bearer " with its empty token. *)
Theorem extractBearerToken_scheme_and_fallback :
  (forall scheme credentials,
     Js.toLowerCase scheme = "bearer" ->
     has_char " " scheme = false -> has_char " " credentials = false ->
     extractBearerToken (Some (scheme +:+ " " +:+ credentials)) = Some credentials) /\
  extractBearerToken (Some "bearer x") = Some "x" /\
  extractBearerToken (Some "BEARER x") = Some "x" /\
  (forall authHeader,
     length (Js.split " " authHeader) <> 2%nat ->
     extractBearerToken (Some authHeader) = None) /\
  extractBearerToken (Some "Bearer") = None /\
  extractBearerToken (Some "Bearer a b") = None /\
  extractBearerToken (Some "Bearer ") = Some "" /\
  (forall req,
     authorization req = Some "Bearer" \/ authorization req = Some "Bearer a b" \/
     authorization req = Some "Bearer " \/
     (exists authHeader, authorization req = Some authHeader /\
                         length (Js.split " " authHeader) <> 2%nat) ->
     extractToken req
     = match access_token req with
       | Js.Str queryToken => Some queryToken
       | _ => None
       end).
Proof.
  split; [exact extractBearerToken_accepts |].
  split; [reflexivity |]. split; [reflexivity |].
  split; [exact extractBearerToken_parts |].
  split; [reflexivity |]. split; [reflexivity |]. split; [reflexivity |].
  intros req H. apply extractToken_fallback.
  destruct H as [-> | [-> | [-> | (authHeader & -> & Hparts)]]].
  - left. reflexivity.
  - left. reflexivity.
  - right. reflexivity.
  - left. apply extractBearerToken_parts, Hparts.
Qed.

Lemma extractBearerToken_scheme_and_fallback_witness :
  extractBearerToken (Some "BeArEr abc.def") = Some "abc.def" /\
  extractBearerToken (Some "Basic xyz extra") = None /\
  extractToken {| authorization := Some "Bearer a b";
                  access_token := Js.Str "q"; token := None |} = Some "q" /\
  extractToken {| authorization := Some "Bearer ";
                  access_token := Js.Str "q"; token := None |} = Some "q".
Proof.
  destruct extractBearerToken_scheme_and_fallback
    as (Haccept & _ & _ & Hparts & _ & _ & _ & Hfallback).
  split; [| split; [| split]].
  - apply (Haccept "BeArEr" "abc.def"); reflexivity.
  - apply (Hparts "Basic xyz extra"). cbn. lia.
  - apply (Hfallback {| authorization := Some "Bearer a b";
                        access_token := Js.Str "q"; token := None |}).
    right. left. reflexivity.
  - apply (Hfallback {| authorization := Some "Bearer ";
                        access_token := Js.Str "q"; token := None |}).
    right. right. left. reflexivity.
Defined.

(** ** The middleware boundary *)

Lemma includes_In (xs : list string) (x : string) :
  Js.includes xs x = true <-> In x xs.
Proof.
  unfold Js.includes. rewrite existsb_exists. split.
  - intros (y & Hy & Heq). apply String.eqb_eq in Heq. subst. exact Hy.
  - intros Hx. exists x. split; [exact Hx | apply String.eqb_refl].
Qed.

Lemma missing_scopes_In (token : TokenSet) (requiredScopes : list string) (s : string) :
  In s (List.filter (fun scope => negb (hasScope token scope)) requiredScopes)
  <-> In s requiredScopes /\ ~ In s (getTokenScopes token).
Proof.
  rewrite filter_In. unfold hasScope. rewrite negb_true_iff.
  rewrite <- (includes_In (getTokenScopes token) s).
  destruct (Js.includes (getTokenScopes token) s); intuition congruence.
Qed.

Section AuthMiddleware.

Variables (validator : TokenValidator) (req : Request).

Lemma createAuthMiddleware_no_token :
  extractToken req = None \/ extractToken req = Some "" ->
  createAuthMiddleware validator req
  = Responded (mkResponse 401 "unauthorized" "Missing authentication token").
Proof.
  unfold createAuthMiddleware. intros [-> | ->]; reflexivity.
Qed.

Lemma createAuthMiddleware_validates (t : string) :
  extractToken req = Some t -> t <> "" ->
  createAuthMiddleware validator req
  = match validator t with
    | Err e => Responded (mkResponse 401 "invalid_token" (oauth_message e))
    | Ok value => Next (mkRequest (authorization req) (access_token req) (Some value))
    end.
Proof.
  unfold createAuthMiddleware. intros -> Hne. cbn.
  destruct (String.eqb_spec t ""); [contradiction | reflexivity].
Qed.

End AuthMiddleware.

(** C5, as the code has it. [createAuthMiddleware] answers 401
    "unauthorized" when no token, or an empty one, is extracted, as with no
    Authorization header and no [access_token] query parameter; 401
    "invalid_token" for a non-empty token the validator rejects; and for a
    non-empty token the validator accepts it attaches the validated token
    and calls [next]. [requireScopes] answers 401 when no token is attached,
    403 "insufficient_scope" naming the required scopes that are not in the
    scope list of the token when there are some, and calls [next] exactly
    when there are none. *)
Theorem middleware_boundary (validator : TokenValidator)
    (requiredScopes : list string) (req : Request) :
  (extractToken req = None \/ extractToken req = Some "" ->
   createAuthMiddleware validator req
   = Responded (mkResponse 401 "unauthorized" "Missing authentication token")) /\
  (authorization req = None -> access_token req = Js.Undefined ->
   extractToken req = None) /\
  (forall t e,
     extractToken req = Some t -> t <> "" -> validator t = Err e ->
     createAuthMiddleware validator req
     = Responded (mkResponse 401 "invalid_token" (oauth_message e))) /\
  (forall t value,
     extractToken req = Some t -> t <> "" -> validator t = Ok value ->
     createAuthMiddleware validator req
     = Next (mkRequest (authorization req) (access_token req) (Some value))) /\
  (token req = None ->
   requireScopes requiredScopes req
   = Responded (mkResponse 401 "unauthorized" "Authentication required")) /\
  (forall attached,
     token req = Some attached ->
     let missingScopes :=
       List.filter (fun scope => negb (hasScope attached scope)) requiredScopes in
     (forall s, In s missingScopes
                <-> In s requiredScopes /\ ~ In s (getTokenScopes attached)) /\
     (missingScopes <> [] ->
      requireScopes requiredScopes req
      = Responded
          (mkResponse 403 "insufficient_scope"
             ("Missing required scopes: " +:+ Js.join ", " missingScopes))) /\
     (missingScopes = [] -> requireScopes requiredScopes req = Next req) /\
     (forall req', requireScopes requiredScopes req = Next req' ->
                   missingScopes = [] /\ req' = req)).
Proof.
  split; [apply createAuthMiddleware_no_token |].
  split.
  { unfold extractToken. intros -> ->. reflexivity. }
  split.
  { intros t e Ht Hne Hv.
    rewrite (createAuthMiddleware_validates validator req t Ht Hne), Hv. reflexivity. }
  split.
  { intros t value Ht Hne Hv.
    rewrite (createAuthMiddleware_validates validator req t Ht Hne), Hv. reflexivity. }
  split.
  { unfold requireScopes. intros ->. reflexivity. }
  intros attached Htoken missingScopes.
  split; [apply missing_scopes_In |].
  unfold requireScopes. rewrite Htoken. fold missingScopes.
  destruct missingScopes as [| m rest]; cbn [length Nat.ltb Nat.leb].
  - split; [congruence |]. split; [reflexivity |].
    intros req' [= <-]. split; reflexivity.
  - split; [reflexivity |]. split; [discriminate |]. discriminate.
Qed.

Lemma middleware_boundary_witness :
  createAuthMiddleware reject_all (query_request Js.Undefined)
  = Responded (mkResponse 401 "unauthorized" "Missing authentication token") /\
  createAuthMiddleware reject_all (header_request "Basic xyz")
  = Responded (mkResponse 401 "unauthorized" "Missing authentication token") /\
  createAuthMiddleware reject_all (header_request "Bearer short")
  = Responded (mkResponse 401 "invalid_token" "Invalid token format") /\
  createAuthMiddleware accept_all (query_request (Js.Str "t0ken"))
  = Next {| authorization := None; access_token := Js.Str "t0ken";
            token := Some {| accessToken := "t0ken"; tokenType := "Bearer";
                             expiresAt := None; refreshToken := None;
                             scope := None |} |} /\
  requireScopes ["read"; "write"] (query_request Js.Undefined)
  = Responded (mkResponse 401 "unauthorized" "Authentication required") /\
  requireScopes ["read"; "write"] (authenticated_request (Some "read"))
  = Responded (mkResponse 403 "insufficient_scope" "Missing required scopes: write") /\
  requireScopes ["read"; "write"] (authenticated_request (Some "write  read"))
  = Next (authenticated_request (Some "write  read")).
Proof.
  split; [| split; [| split; [| split; [| split; [| split]]]]].
  - apply (proj1 (middleware_boundary reject_all [] (query_request Js.Undefined))).
    left. reflexivity.
  - apply (proj1 (middleware_boundary reject_all [] (header_request "Basic xyz"))).
    left. reflexivity.
  - destruct (middleware_boundary reject_all [] (header_request "Bearer short"))
      as (_ & _ & Hreject & _).
    apply (Hreject "short" (oauthError "Invalid token format" None None));
      [reflexivity | discriminate | reflexivity].
  - destruct (middleware_boundary accept_all [] (query_request (Js.Str "t0ken")))
      as (_ & _ & _ & Haccept & _).
    apply (Haccept "t0ken"); [reflexivity | discriminate | reflexivity].
  - destruct (middleware_boundary accept_all ["read"; "write"] (query_request Js.Undefined))
      as (_ & _ & _ & _ & Hnone & _).
    apply Hnone. reflexivity.
  - destruct (middleware_boundary accept_all ["read"; "write"]
                (authenticated_request (Some "read")))
      as (_ & _ & _ & _ & _ & Hscopes).
    destruct (Hscopes _ eq_refl) as (_ & Hmissing & _).
    apply Hmissing. discriminate.
  - destruct (middleware_boundary accept_all ["read"; "write"]
                (authenticated_request (Some "write  read")))
      as (_ & _ & _ & _ & _ & Hscopes).
    destruct (Hscopes _ eq_refl) as (_ & _ & Hnext & _).
    apply Hnext. reflexivity.
Defined.

(** C5 as written fails on the request [?access_token=]: the query
    parameter is present, its empty value is the extracted token and the
    validator accepts it, yet the answer is 401 "unauthorized" and [next]
    is not called. *)
Lemma createAuthMiddleware_empty_token_counterexample :
  access_token (query_request (Js.Str "")) = Js.Str "" /\
  extractToken (query_request (Js.Str "")) = Some "" /\
  isOk (accept_all "") = true /\
  createAuthMiddleware accept_all (query_request (Js.Str ""))
  = Responded (mkResponse 401 "unauthorized" "Missing authentication token").
Proof. repeat split. Qed.

(** ** The authorization URL *)

Lemma sp_get_remove_ne (name k : string) (params : list (string * string)) :
  k <> name -> sp_get k (sp_remove name params) = sp_get k params.
Proof.
  intros Hne. unfold sp_remove.
  induction params as [| [k' v] rest IH]; cbn [List.filter fst]; [reflexivity |].
  destruct (String.eqb_spec k' name) as [-> | Hk']; cbn [negb sp_get].
  - destruct (String.eqb_spec name k); [congruence | exact IH].
  - rewrite IH. reflexivity.
Qed.

Lemma sp_get_set_eq (name value : string) (params : list (string * string)) :
  sp_get name (sp_set name value params) = Some value.
Proof.
  induction params as [| [k v] rest IH]; cbn [sp_set sp_get].
  - rewrite String.eqb_refl. reflexivity.
  - destruct (String.eqb_spec k name) as [-> | Hk]; cbn [sp_get].
    + rewrite String.eqb_refl. reflexivity.
    + destruct (String.eqb_spec k name); [contradiction | exact IH].
Qed.

Lemma sp_get_set_ne (name value k : string) (params : list (string * string)) :
  k <> name -> sp_get k (sp_set name value params) = sp_get k params.
Proof.
  intros Hne. induction params as [| [k' v] rest IH]; cbn [sp_set sp_get].
  - destruct (String.eqb_spec name k); [congruence | reflexivity].
  - destruct (String.eqb_spec k' name) as [-> | Hk']; cbn [sp_get].
    + destruct (String.eqb_spec name k); [congruence |].
      apply sp_get_remove_ne, Hne.
    + rewrite IH. reflexivity.
Qed.

Lemma sp_has_get (name : string) (params : list (string * string)) :
  sp_has name params = true <-> sp_get name params <> None.
Proof.
  unfold sp_has. destruct (sp_get name params); split; congruence.
Qed.

Ltac search_params :=
  repeat (rewrite sp_get_set_eq || rewrite sp_get_set_ne by discriminate).

(** C6, as the code has it. When the authorization endpoint parses as a
    URL, the URL built is that one with its query changed: it has
    [response_type=code], the [client_id] of the configuration and the
    [redirect_uri] and [state] of the flow; with scopes configured it has
    them, joined by spaces, as [scope], and with none it has the [scope] of
    the endpoint address, if any; with [pkce] not [false] it has the
    [code_challenge] of the flow and [code_challenge_method=S256], and with
    [pkce] [false] it has those of the endpoint address, if any. For an
    endpoint address without these three parameters, [scope] is there
    exactly when scopes are configured, and the challenge and its method
    exactly when [pkce] is not [false]. *)
Theorem buildAuthorizationUrl_parameters `{api : UrlApi}
    (config : OAuthConfig) (state : AuthorizationState) (endpoint : URL) :
  parseUrl (authorizationUrl config) = Some endpoint ->
  exists url,
    buildAuthorizationUrl config state = Some url /\
    url_base url = url_base endpoint /\
    sp_get "response_type" (searchParams url) = Some "code" /\
    sp_get "client_id" (searchParams url) = Some (clientId config) /\
    sp_get "redirect_uri" (searchParams url) = Some (redirectUri state) /\
    sp_get "state" (searchParams url) = Some (auth_state state) /\
    sp_get "scope" (searchParams url)
    = (if (0 <? length (scopes config))%nat
       then Some (Js.join " " (scopes config))
       else sp_get "scope" (searchParams endpoint)) /\
    sp_get "code_challenge" (searchParams url)
    = (if pkce_not_false config
       then Some (codeChallenge (auth_pkce state))
       else sp_get "code_challenge" (searchParams endpoint)) /\
    sp_get "code_challenge_method" (searchParams url)
    = (if pkce_not_false config
       then Some "S256"
       else sp_get "code_challenge_method" (searchParams endpoint)) /\
    (sp_has "scope" (searchParams endpoint) = false ->
     (sp_has "scope" (searchParams url) = true <-> scopes config <> [])) /\
    (sp_has "code_challenge" (searchParams endpoint) = false ->
     sp_has "code_challenge_method" (searchParams endpoint) = false ->
     (sp_has "code_challenge" (searchParams url) = true <-> pkce config <> Some false) /\
     (sp_get "code_challenge_method" (searchParams url) = Some "S256"
      <-> pkce config <> Some false)).
Proof.
  intros Hparse. unfold buildAuthorizationUrl. rewrite Hparse.
  eexists. split; [reflexivity |].
  unfold sp_has, pkce_not_false.
  destruct (scopes config) as [| s0 rest]; destruct (pkce config) as [[|] |];
    destruct (auth_pkce state) as [verifier challenge []];
    cbn [length Nat.ltb Nat.leb fold_left pkceToQueryParams fst snd url_set
         searchParams url_base codeChallenge codeChallengeMethod method_string];
    search_params;
    (repeat (split; [reflexivity |]));
    (split; [intros Hnone | intros Hnone1 Hnone2]);
    repeat match goal with
           | H : match ?x with Some _ => true | None => false end = false |- _ =>
               destruct x; [discriminate H | clear H]
           end;
    intuition congruence.
Qed.

Lemma buildAuthorizationUrl_parameters_witness :
  exists url,
    @buildAuthorizationUrl example_urls sample_config sample_state = Some url /\
    searchParams url
    = [("response_type", "code"); ("client_id", "c1");
       ("redirect_uri", "https://app/cb"); ("state", "st4te"); ("scope", "read");
       ("code_challenge", "E9Melhoa2OwvFrEMTJguCHaoeK1t8URWbuGJSstw-cM");
       ("code_challenge_method", "S256")] /\
    sp_get "response_type" (searchParams url) = Some "code" /\
    (sp_has "scope" (searchParams url) = true <-> scopes sample_config <> []).
Proof.
  destruct (@buildAuthorizationUrl_parameters example_urls sample_config sample_state
              (mkURL "https://auth/authorize" [] "") eq_refl)
    as (url & Hurl & _ & Hresponse & _ & _ & _ & _ & _ & _ & Hscope & _).
  exists url. split; [exact Hurl |]. split.
  - cbv in Hurl. injection Hurl as <-. reflexivity.
  - split; [exact Hresponse | apply Hscope; reflexivity].
Defined.

(** C6 as written fails on a valid configuration whose endpoint address
    has a query: with no scopes configured and [pkce: false], the URL built
    from [https://auth.example.com/authorize?scope=openid] has a [scope]
    parameter. *)
Lemma buildAuthorizationUrl_scope_counterexample :
  scopes scoped_endpoint_config = [] /\
  exists url,
    @buildAuthorizationUrl example_urls scoped_endpoint_config sample_state = Some url /\
    searchParams url
    = [("scope", "openid"); ("response_type", "code"); ("client_id", "c1");
       ("redirect_uri", "https://app/cb"); ("state", "st4te")] /\
    sp_has "scope" (searchParams url) = true.
Proof.
  split; [reflexivity |]. eexists. split; [reflexivity |]. split; reflexivity.
Qed.

(** ** The code challenge *)

Lemma list_ind3 {A : Type} (P : list A -> Prop) :
  P [] -> (forall a, P [a]) -> (forall a b, P [a; b]) ->
  (forall a b c l, P l -> P (a :: b :: c :: l)) ->
  forall l, P l.
Proof.
  intros H0 H1 H2 H3. fix IH 1.
  intros [| a [| b [| c l]]]; [exact H0 | apply H1 | apply H2 |].
  apply H3, IH.
Qed.

(** The three replacements, character by character. *)
Lemma base64Url_step (c : ascii) (rest : string) :
  replace_all "=" "" (replace_all "/" "_" (replace_all "+" "-" (String c rest)))
  = if Ascii.eqb c "=" then
      replace_all "=" "" (replace_all "/" "_" (replace_all "+" "-" rest))
    else
      String (url_char c)
        (replace_all "=" "" (replace_all "/" "_" (replace_all "+" "-" rest))).
Proof.
  unfold url_char.
  destruct (Ascii.eqb_spec c "+") as [-> | Hplus]; [reflexivity |].
  destruct (Ascii.eqb_spec c "/") as [-> | Hslash]; [reflexivity |].
  destruct (Ascii.eqb_spec c "=") as [-> | Hequal]; [reflexivity |].
  apply Ascii.eqb_neq in Hplus, Hslash, Hequal.
  cbn [replace_all]. rewrite Hplus. cbn [replace_all]. rewrite Hslash.
  cbn [replace_all]. rewrite Hequal. reflexivity.
Qed.

Lemma base64_char_url_safe (sextet : N) :
  Ascii.eqb (base64_char sextet) "=" = false /\
  is_base64url_char (url_char (base64_char sextet)) = true.
Proof.
  assert (Hall : forallb (fun c => negb (Ascii.eqb c "=")
                                   && is_base64url_char (url_char c))
                   ("A"%char :: base64_alphabet) = true) by reflexivity.
  rewrite forallb_forall in Hall.
  assert (Hin : In (base64_char sextet) ("A"%char :: base64_alphabet)).
  { unfold base64_char.
    destruct (nth_in_or_default (N.to_nat sextet) base64_alphabet "A"%char) as [Hin | ->].
    - right. exact Hin.
    - left. reflexivity. }
  specialize (Hall _ Hin). apply andb_prop in Hall as [Hne Hsafe].
  split; [apply negb_true_iff, Hne | exact Hsafe].
Qed.

Lemma base64Url_step_char (sextet : N) (rest : string) :
  replace_all "=" ""
    (replace_all "/" "_" (replace_all "+" "-" (String (base64_char sextet) rest)))
  = String (url_char (base64_char sextet))
      (replace_all "=" "" (replace_all "/" "_" (replace_all "+" "-" rest))).
Proof.
  rewrite base64Url_step.
  destruct (base64_char_url_safe sextet) as [-> _]. reflexivity.
Qed.

Lemma base64UrlEncode_shape (buffer : list byte) :
  String.length (base64UrlEncode buffer) = base64url_length (length buffer) /\
  all_chars is_base64url_char (base64UrlEncode buffer) = true.
Proof.
  unfold base64UrlEncode.
  induction buffer as [| a | a b | a b c rest [IHlen IHall]] using list_ind3;
    cbn [toString_base64 length base64url_length];
    rewrite ?base64Url_step_char;
    cbn [String.length all_chars];
    rewrite ?(proj2 (base64_char_url_safe _)).
  - split; reflexivity.
  - split; reflexivity.
  - split; reflexivity.
  - rewrite IHlen, IHall. split; reflexivity.
Qed.

Lemma all_chars_has_char (p : ascii -> bool) (c : ascii) (s : string) :
  all_chars p s = true -> p c = false -> has_char c s = false.
Proof.
  intros Hall Hc. induction s as [| x rest IH]; cbn [has_char]; [reflexivity |].
  cbn [all_chars] in Hall. apply andb_prop in Hall as [Hx Hrest].
  rewrite (IH Hrest), orb_false_r.
  destruct (Ascii.eqb_spec x c) as [-> | _]; [congruence | reflexivity].
Qed.

(** C8: [computeCodeChallenge] is a function of its argument, and on a
    digest of 32 bytes its result has 43 characters, every one a letter, a
    digit, [-] or [_]: none is [+], [/] or [=]. *)
Theorem computeCodeChallenge_format `{crypto : Crypto} :
  (forall message, length (sha256 message) = 32%nat) ->
  forall verifier : string,
    (forall verifier', verifier' = verifier ->
       computeCodeChallenge verifier' = computeCodeChallenge verifier) /\
    String.length (computeCodeChallenge verifier) = 43%nat /\
    all_chars is_base64url_char (computeCodeChallenge verifier) = true /\
    has_char "+" (computeCodeChallenge verifier) = false /\
    has_char "/" (computeCodeChallenge verifier) = false /\
    has_char "=" (computeCodeChallenge verifier) = false.
Proof.
  intros Hdigest verifier.
  split; [intros verifier' ->; reflexivity |].
  unfold computeCodeChallenge.
  destruct (base64UrlEncode_shape (sha256 (list_byte_of_string verifier)))
    as [Hlen Hall].
  rewrite Hdigest in Hlen.
  split; [exact Hlen |]. split; [exact Hall |].
  repeat split; apply (all_chars_has_char is_base64url_char _ _ Hall); reflexivity.
Qed.

Lemma sha256_digest_length (message : list byte) :
  length (Sha256.digest message) = 32%nat.
Proof. unfold Sha256.digest. rewrite length_map. reflexivity. Qed.

Lemma computeCodeChallenge_format_witness :
  @computeCodeChallenge node_crypto "dBjftJeZ4CVP-mB92K27uhbUJU1p1r_wW1gFWFOEjXk"
  = "E9Melhoa2OwvFrEMTJguCHaoeK1t8URWbuGJSstw-cM" /\
  String.length
    (@computeCodeChallenge node_crypto "dBjftJeZ4CVP-mB92K27uhbUJU1p1r_wW1gFWFOEjXk")
  = 43%nat /\
  has_char "="
    (@computeCodeChallenge node_crypto "dBjftJeZ4CVP-mB92K27uhbUJU1p1r_wW1gFWFOEjXk")
  = false.
Proof.
  split; [vm_compute; reflexivity |].
  destruct (@computeCodeChallenge_format node_crypto sha256_digest_length
              "dBjftJeZ4CVP-mB92K27uhbUJU1p1r_wW1gFWFOEjXk")
    as (_ & Hlen & _ & _ & _ & Hpad).
  split; [exact Hlen | exact Hpad].
Defined.

(** * Further properties of the code *)

(** ** Results *)

Lemma sequence_from_Ok {T E} (results : list (Result T E)) (acc values : list T) :
  Res.sequence_from acc results = Ok values
  <-> exists rest, values = (acc ++ rest)%list /\ results = List.map Ok rest.
Proof.
  revert acc. induction results as [| [v | e] results IH]; intros acc;
    cbn [Res.sequence_from].
  - split.
    + intros [= <-]. exists []. rewrite app_nil_r. split; reflexivity.
    + intros ([| x rest] & -> & Hmap); [| discriminate Hmap].
      rewrite app_nil_r. reflexivity.
  - rewrite IH. split.
    + intros (rest & -> & ->). exists (v :: rest).
      rewrite <- app_assoc. split; reflexivity.
    + intros ([| x rest] & -> & Hmap); [discriminate Hmap |].
      injection Hmap as <- ->. exists rest.
      rewrite <- app_assoc. split; reflexivity.
  - split; [discriminate |].
    intros ([| x rest] & _ & Hmap); discriminate Hmap.
Qed.

Lemma sequence_from_Err {T E} (results : list (Result T E)) (acc : list T) (e : E) :
  Res.sequence_from acc results = Err e
  <-> exists values rest, results = (List.map Ok values ++ Err e :: rest)%list.
Proof.
  revert acc. induction results as [| [v | e'] results IH]; intros acc;
    cbn [Res.sequence_from].
  - split; [discriminate |].
    intros ([| x values] & rest & Hmap); discriminate Hmap.
  - rewrite IH. split.
    + intros (values & rest & ->). exists (v :: values), rest. reflexivity.
    + intros ([| x values] & rest & Hmap); [discriminate Hmap |].
      injection Hmap as _ ->. exists values, rest. reflexivity.
  - split.
    + intros [= ->]. exists [], results. reflexivity.
    + intros ([| x values] & rest & Hmap); [| discriminate Hmap].
      injection Hmap as -> _. reflexivity.
Qed.

(** X1: [sequence] succeeds exactly on a list of successes, with their
    values in order, and otherwise fails with the first error of the list. *)
Theorem sequence_first_error {T E : Type} (results : list (Result T E)) :
  (forall values,
     Res.sequence results = Ok values <-> results = List.map Ok values) /\
  (forall e,
     Res.sequence results = Err e
     <-> exists values rest, results = (List.map Ok values ++ Err e :: rest)%list).
Proof.
  unfold Res.sequence. split.
  - intros values. rewrite sequence_from_Ok. split.
    + intros (rest & -> & ->). reflexivity.
    + intros ->. exists values. split; reflexivity.
  - intros e. apply sequence_from_Err.
Qed.

(** X2: [traverse] succeeds exactly when the function succeeds on every
    item, with the results in order, and otherwise fails with the error of
    the first item on which the function fails. *)
Theorem traverse_all_or_first_error {T U E : Type} (fn : T -> Result U E)
    (items : list T) :
  (forall values,
     Res.traverse fn items = Ok values
     <-> Forall2 (fun item value => fn item = Ok value) items values) /\
  (forall e,
     Res.traverse fn items = Err e
     <-> exists before item after,
           items = (before ++ item :: after)%list /\
           Forall (fun x => isOk (fn x) = true) before /\
           fn item = Err e).
Proof.
  unfold Res.traverse, Res.sequence. split.
  - intros values. rewrite sequence_from_Ok. split.
    + intros (rest & -> & Hmap). cbn [app].
      revert rest Hmap. induction items as [| x items IH]; intros [| v rest] Hmap;
        try discriminate Hmap; constructor.
      * cbn in Hmap. congruence.
      * apply IH. cbn in Hmap. congruence.
    + intros Hall. exists values. split; [reflexivity |].
      induction Hall as [| x v items values Hx _ IH]; cbn; [reflexivity |].
      rewrite Hx, IH. reflexivity.
  - intros e. rewrite sequence_from_Err. split.
    + intros (values & rest & Hmap).
      revert values Hmap. induction items as [| x items IH]; intros values Hmap.
      * destruct values; discriminate Hmap.
      * destruct values as [| v values]; cbn in Hmap.
        -- injection Hmap as Hx _. exists [], x, items.
           split; [reflexivity |]. split; [constructor | exact Hx].
        -- injection Hmap as Hx Hrest.
           destruct (IH values Hrest) as (before & item & after & -> & Hbefore & Hitem).
           exists (x :: before), item, after.
           split; [reflexivity |]. split; [| exact Hitem].
           constructor; [rewrite Hx; reflexivity | exact Hbefore].
    + intros (before & item & after & -> & Hbefore & Hitem).
      induction Hbefore as [| x before Hx _ IH].
      * exists [], (List.map fn after). cbn. rewrite Hitem. reflexivity.
      * destruct IH as (values & rest & Hmap).
        destruct (fn x) as [v |] eqn:Hfx; [| discriminate Hx].
        exists (v :: values), rest. cbn. rewrite Hfx, <- Hmap. reflexivity.
Qed.

(** X3: [flatMap] with [ok] obeys the monad laws, [map] is [flatMap] with a
    function that always succeeds, and [mapErr] leaves what [map] changes. *)
Theorem result_monad_laws {T U V E F : Type}
    (f : T -> Result U E) (g : U -> Result V E) (h : T -> U) (k : E -> F)
    (x : T) (result : Result T E) :
  Res.flatMap f (Ok x) = f x /\
  Res.flatMap Ok result = result /\
  Res.flatMap g (Res.flatMap f result)
  = Res.flatMap (fun value => Res.flatMap g (f value)) result /\
  Res.map h result = Res.flatMap (fun value => Ok (h value)) result /\
  Res.mapErr k (Res.map h result) = Res.map h (Res.mapErr k result) /\
  Res.fold (fun _ => false) (fun _ => true) result = isOk result.
Proof.
  destruct result; repeat split.
Qed.

(** ** PKCE values *)

Lemma base64url_length_closed (n : nat) :
  base64url_length n = ((4 * n + 2) / 3)%nat.
Proof.
  induction n as [n IH] using lt_wf_ind.
  destruct n as [| [| [| m]]]; [reflexivity | reflexivity | reflexivity |].
  cbn [base64url_length]. rewrite (IH m) by lia.
  replace (4 * S (S (S m)) + 2)%nat with ((4 * m + 2) + 4 * 3)%nat by lia.
  rewrite Nat.div_add by discriminate. lia.
Qed.

Lemma ascii_class_one_unit (class : ascii -> bool) :
  (forall c, class c = true -> utf16_units c = 1%nat) ->
  forall s, all_chars class s = true -> js_length s = String.length s.
Proof.
  intros Hclass s. induction s as [| c rest IH]; cbn [all_chars js_length String.length];
    [reflexivity |].
  intros Hall. apply andb_prop in Hall as [Hc Hrest].
  rewrite (Hclass c Hc), (IH Hrest). reflexivity.
Qed.

Lemma unreserved_one_unit (c : ascii) :
  is_unreserved_char c = true -> utf16_units c = 1%nat.
Proof.
  destruct c as [[] [] [] [] [] [] [] []]; vm_compute; congruence.
Qed.

Lemma base64url_one_unit (c : ascii) :
  is_base64url_char c = true -> utf16_units c = 1%nat.
Proof.
  destruct c as [[] [] [] [] [] [] [] []]; vm_compute; congruence.
Qed.

Lemma all_chars_nonempty (class : ascii -> bool) (s : string) :
  String.length s <> 0%nat -> all_chars class s = true ->
  matches_all class s = true.
Proof.
  unfold matches_all. intros Hlen ->. destruct s; [contradiction | reflexivity].
Qed.

Lemma string_of_list_length (l : list ascii) :
  String.length (string_of_list_ascii l) = length l.
Proof. induction l as [| c l IH]; cbn; [reflexivity | rewrite IH; reflexivity]. Qed.

Lemma string_of_list_all_chars (class : ascii -> bool) (l : list ascii) :
  all_chars class (string_of_list_ascii l) = forallb class l.
Proof. induction l as [| c l IH]; cbn; [reflexivity | rewrite IH; reflexivity]. Qed.

Lemma verifier_char_unreserved (b : byte) :
  is_unreserved_char (verifier_char b) = true.
Proof.
  assert (Hall : forallb is_unreserved_char
                   (list_ascii_of_string CODE_VERIFIER_CHARSET) = true) by reflexivity.
  rewrite forallb_forall in Hall. apply Hall.
  unfold verifier_char. apply nth_In.
  change (length (list_ascii_of_string CODE_VERIFIER_CHARSET)) with 66%nat.
  change (String.length CODE_VERIFIER_CHARSET) with 66%nat.
  apply Nat.mod_upper_bound. discriminate.
Qed.

(** X4: for every buffer, [base64UrlEncode] gives [ceil(4n/3)] characters
    for [n] bytes, all of them letters, digits, [-] or [_]: no [+], [/] or
    padding is left. *)
Theorem base64UrlEncode_length_alphabet (buffer : list byte) :
  String.length (base64UrlEncode buffer) = ((4 * length buffer + 2) / 3)%nat /\
  all_chars is_base64url_char (base64UrlEncode buffer) = true /\
  has_char "+" (base64UrlEncode buffer) = false /\
  has_char "/" (base64UrlEncode buffer) = false /\
  has_char "=" (base64UrlEncode buffer) = false.
Proof.
  destruct (base64UrlEncode_shape buffer) as [Hlen Hall].
  rewrite base64url_length_closed in Hlen.
  split; [exact Hlen |]. split; [exact Hall |].
  repeat split; apply (all_chars_has_char is_base64url_char _ _ Hall); reflexivity.
Qed.

(** X5: from the 64 bytes of [randomBytes], [generateCodeVerifier] makes a
    verifier of 64 characters of the unreserved set, which
    [isValidCodeVerifier] accepts. *)
Theorem generateCodeVerifier_valid (bytes : list byte) :
  length bytes = 64%nat ->
  js_length (generateCodeVerifier bytes) = 64%nat /\
  all_chars is_unreserved_char (generateCodeVerifier bytes) = true /\
  isValidCodeVerifier (generateCodeVerifier bytes) = true.
Proof.
  intros Hbytes.
  assert (Hall : all_chars is_unreserved_char (generateCodeVerifier bytes) = true).
  { unfold generateCodeVerifier. rewrite string_of_list_all_chars, forallb_forall.
    intros c Hc. apply in_map_iff in Hc as (b & <- & _).
    apply verifier_char_unreserved. }
  assert (Hlen : String.length (generateCodeVerifier bytes) = 64%nat).
  { unfold generateCodeVerifier, CODE_VERIFIER_LENGTH.
    rewrite string_of_list_length, length_map, length_firstn, Hbytes. reflexivity. }
  assert (Hunits : js_length (generateCodeVerifier bytes) = 64%nat).
  { rewrite (ascii_class_one_unit _ unreserved_one_unit _ Hall). exact Hlen. }
  split; [exact Hunits |]. split; [exact Hall |].
  unfold isValidCodeVerifier. rewrite Hunits. cbn [Nat.ltb Nat.leb orb].
  apply all_chars_nonempty; [rewrite Hlen; discriminate | exact Hall].
Qed.

Lemma generateCodeVerifier_valid_witness :
  generateCodeVerifier sample_verifier_bytes
  = "DKRYfmt07AHOVcjqx4.ELSZgnu18BIPWdkry5GNUbipw3-DKRYfmt07AHOVcjqx4"
  /\ isValidCodeVerifier (generateCodeVerifier sample_verifier_bytes) = true.
Proof.
  split; [vm_compute; reflexivity |].
  apply (generateCodeVerifier_valid sample_verifier_bytes). reflexivity.
Defined.

(** X6: the parameters [generatePkceParams] makes are consistent: the
    verifier is a valid one, the challenge is a well-formed one, the
    challenge is the one [validateCodeVerifier] accepts for the verifier,
    and the query parameters name the method S256. *)
Theorem generatePkceParams_consistent `{crypto : Crypto} (verifierBytes : list byte) :
  (forall message, length (sha256 message) = 32%nat) ->
  length verifierBytes = 64%nat ->
  let params := generatePkceParams verifierBytes in
  isValidCodeVerifier (codeVerifier params) = true /\
  isValidCodeChallenge (codeChallenge params) = true /\
  validateCodeVerifier (codeVerifier params) (codeChallenge params) = true /\
  pkceToQueryParams params
  = [("code_challenge", computeCodeChallenge (codeVerifier params));
     ("code_challenge_method", "S256")] /\
  pkceToTokenParams (codeVerifier params) !! "code_verifier"
  = Some (generateCodeVerifier verifierBytes).
Proof.
  intros Hdigest Hbytes params. subst params.
  cbn [generatePkceParams codeVerifier codeChallenge].
  split; [apply (generateCodeVerifier_valid verifierBytes Hbytes) |].
  split.
  { unfold isValidCodeChallenge, computeCodeChallenge.
    destruct (base64UrlEncode_shape
                (sha256 (list_byte_of_string (generateCodeVerifier verifierBytes))))
      as [Hlen Hall].
    rewrite Hdigest in Hlen.
    rewrite (ascii_class_one_unit _ base64url_one_unit _ Hall), Hlen.
    cbn [Nat.eqb negb base64url_length].
    apply all_chars_nonempty; [rewrite Hlen; discriminate | exact Hall]. }
  split; [unfold validateCodeVerifier; apply String.eqb_refl |].
  split; [reflexivity |].
  unfold pkceToTokenParams. apply lookup_singleton_eq.
Qed.

Lemma generatePkceParams_consistent_witness :
  let params := @generatePkceParams node_crypto sample_verifier_bytes in
  isValidCodeVerifier (codeVerifier params) = true /\
  isValidCodeChallenge (codeChallenge params) = true /\
  @validateCodeVerifier node_crypto (codeVerifier params) (codeChallenge params) = true.
Proof.
  destruct (@generatePkceParams_consistent node_crypto sample_verifier_bytes
              sha256_digest_length eq_refl) as (Hv & Hc & Hok & _).
  split; [exact Hv |]. split; [exact Hc | exact Hok].
Defined.

(** ** [base64UrlEncode] loses nothing *)

Lemma all_bytes_complete (b : byte) : In b all_bytes.
Proof.
  assert (H : existsb (Byte.eqb b) all_bytes = true)
    by (destruct b; vm_compute; reflexivity).
  apply existsb_exists in H as (x & Hx & Heq).
  apply Byte.byte_dec_bl in Heq. subst. exact Hx.
Qed.

Lemma for_all_bytes (p : byte -> bool) :
  forallb p all_bytes = true -> forall b, p b = true.
Proof.
  intros H b. rewrite forallb_forall in H. apply H, all_bytes_complete.
Qed.

Lemma for_all_bytes2 (p : byte -> byte -> bool) :
  forallb (fun a => forallb (p a) all_bytes) all_bytes = true ->
  forall a b, p a b = true.
Proof.
  intros H a b. apply for_all_bytes. revert a. apply for_all_bytes. exact H.
Qed.

Lemma sextets_bounded (a b : byte) :
  (sextet1 a < 64 /\ sextet2 a b < 64 /\ sextet3 a b < 64 /\ sextet4 a < 64)%N.
Proof.
  assert (H := for_all_bytes2
    (fun a b => (sextet1 a <? 64)%N && (sextet2 a b <? 64)%N
                && (sextet3 a b <? 64)%N && (sextet4 a <? 64)%N)
    ltac:(vm_compute; reflexivity) a b).
  cbv beta in H.
  repeat (apply andb_prop in H as [H ?]).
  repeat split; apply N.ltb_lt; assumption.
Qed.

Lemma sextet1_bounded (a : byte) : (sextet1 a < 64)%N.
Proof. apply (sextets_bounded a a). Qed.

Lemma sextet2_bounded (a b : byte) : (sextet2 a b < 64)%N.
Proof. apply (sextets_bounded a b). Qed.

Lemma sextet3_bounded (b c : byte) : (sextet3 b c < 64)%N.
Proof. apply (sextets_bounded b c). Qed.

Lemma sextet4_bounded (c : byte) : (sextet4 c < 64)%N.
Proof. apply (sextets_bounded c c). Qed.

(** A byte, read back from the sextets it went into. *)
Lemma sextets_first (a b : byte) :
  Byte.to_N a = (4 * sextet1 a + sextet2 a b / 16)%N.
Proof.
  apply N.eqb_eq.
  exact (for_all_bytes2
           (fun a b => (Byte.to_N a =? 4 * sextet1 a + sextet2 a b / 16)%N)
           ltac:(vm_compute; reflexivity) a b).
Qed.

Lemma sextets_second (a b c : byte) :
  Byte.to_N b = (16 * (sextet2 a b mod 16) + sextet3 b c / 4)%N.
Proof.
  assert (H2 := for_all_bytes2
    (fun a b => (sextet2 a b mod 16 =? Byte.to_N b / 16)%N)
    ltac:(vm_compute; reflexivity) a b).
  assert (H3 := for_all_bytes2
    (fun b c => (sextet3 b c / 4 =? Byte.to_N b mod 16)%N)
    ltac:(vm_compute; reflexivity) b c).
  cbv beta in H2, H3. apply N.eqb_eq in H2, H3. rewrite H2, H3.
  apply N.div_mod. discriminate.
Qed.

Lemma sextets_third (b c : byte) :
  Byte.to_N c = (64 * (sextet3 b c mod 4) + sextet4 c)%N.
Proof.
  assert (H3 := for_all_bytes2
    (fun b c => (sextet3 b c mod 4 =? Byte.to_N c / 64)%N)
    ltac:(vm_compute; reflexivity) b c).
  assert (H4 := for_all_bytes
    (fun c => (sextet4 c =? Byte.to_N c mod 64)%N)
    ltac:(vm_compute; reflexivity) c).
  cbv beta in H3, H4. apply N.eqb_eq in H3, H4. rewrite H3, H4.
  apply N.div_mod. discriminate.
Qed.

Lemma byte_to_N_inj (a b : byte) : Byte.to_N a = Byte.to_N b -> a = b.
Proof.
  intros H. assert (Ha := Byte.of_to_N a). rewrite H, Byte.of_to_N in Ha.
  congruence.
Qed.

Lemma url_index_base64_char (i : nat) :
  (i < 64)%nat -> url_index (url_char (nth i base64_alphabet "A"%char)) = i.
Proof.
  intros Hi.
  do 64 (destruct i as [| i]; [reflexivity |]). lia.
Qed.

Lemma base64_sextet_inj (m n : N) :
  (m < 64)%N -> (n < 64)%N ->
  url_char (base64_char m) = url_char (base64_char n) -> m = n.
Proof.
  intros Hm Hn Heq. apply (f_equal url_index) in Heq.
  unfold base64_char in Heq.
  rewrite !url_index_base64_char in Heq by lia.
  apply N2Nat.inj, Heq.
Qed.

Ltac sextet_bound :=
  first [apply sextet1_bounded | apply sextet2_bounded
        | apply sextet3_bounded | apply sextet4_bounded].

Ltac sextet_eq H := apply base64_sextet_inj in H; [| sextet_bound | sextet_bound].

Lemma base64UrlEncode_inj (buffer1 buffer2 : list byte) :
  base64UrlEncode buffer1 = base64UrlEncode buffer2 -> buffer1 = buffer2.
Proof.
  revert buffer2.
  induction buffer1 as [| a | a b | a b c rest IH] using list_ind3;
    intros [| a' [| b' [| c' rest']]] Heq;
    try reflexivity;
    try (exfalso; apply (f_equal String.length) in Heq;
         rewrite !(proj1 (base64UrlEncode_shape _)) in Heq;
         cbn [length base64url_length] in Heq; lia);
    unfold base64UrlEncode in Heq; cbn [toString_base64] in Heq;
    rewrite !base64Url_step_char in Heq.
  - injection Heq as H1 H2. sextet_eq H1. sextet_eq H2.
    f_equal. apply byte_to_N_inj.
    rewrite (sextets_first a "000"), (sextets_first a' "000"), H1, H2.
    reflexivity.
  - injection Heq as H1 H2 H3. sextet_eq H1. sextet_eq H2. sextet_eq H3.
    f_equal; [| f_equal]; apply byte_to_N_inj.
    + rewrite (sextets_first a b), (sextets_first a' b'), H1, H2. reflexivity.
    + rewrite (sextets_second a b "000"), (sextets_second a' b' "000"), H2, H3.
      reflexivity.
  - injection Heq as H1 H2 H3 H4 Hrest.
    sextet_eq H1. sextet_eq H2. sextet_eq H3. sextet_eq H4.
    f_equal; [| f_equal; [| f_equal]]; try apply byte_to_N_inj.
    + rewrite (sextets_first a b), (sextets_first a' b'), H1, H2. reflexivity.
    + rewrite (sextets_second a b c), (sextets_second a' b' c'), H2, H3.
      reflexivity.
    + rewrite (sextets_third b c), (sextets_third b' c'), H3, H4. reflexivity.
    + apply IH. exact Hrest.
Qed.

(** X7: [base64UrlEncode] is injective: two buffers with the same encoding
    are the same buffer, although the padding is removed. *)
Theorem base64UrlEncode_injective (buffer1 buffer2 : list byte) :
  base64UrlEncode buffer1 = base64UrlEncode buffer2 -> buffer1 = buffer2.
Proof. apply base64UrlEncode_inj. Qed.

Lemma base64UrlEncode_injective_witness :
  sample_state_bytes
  = List.map (fun i => Sha256.byte_of (Z.of_nat ((11 * i + 5) mod 256))) (seq 0 32).
Proof.
  apply (base64UrlEncode_injective sample_state_bytes). reflexivity.
Defined.

(** X8: from the 32 bytes of [randomBytes], [generateState] and
    [generateNonce] make 43 characters that need no escaping in a URL, and
    different bytes make different values. *)
Theorem generateState_shape (bytes : list byte) :
  length bytes = 32%nat ->
  js_length (generateState bytes) = 43%nat /\
  all_chars is_base64url_char (generateState bytes) = true /\
  generateNonce bytes = generateState bytes /\
  (forall bytes', generateState bytes' = generateState bytes -> bytes' = bytes).
Proof.
  intros Hbytes. unfold generateState, generateNonce.
  destruct (base64UrlEncode_shape bytes) as [Hlen Hall].
  rewrite Hbytes in Hlen.
  split.
  { rewrite (ascii_class_one_unit _ base64url_one_unit _ Hall). exact Hlen. }
  split; [exact Hall |]. split; [reflexivity |].
  intros bytes'. apply base64UrlEncode_inj.
Qed.

Lemma generateState_shape_witness :
  generateState sample_state_bytes = "BRAbJjE8R1JdaHN-iZSfqrXAy9bh7PcCDRgjLjlET1o" /\
  js_length (generateState sample_state_bytes) = 43%nat.
Proof.
  split; [vm_compute; reflexivity |].
  apply (generateState_shape sample_state_bytes). reflexivity.
Defined.

(** ** Scopes *)

Lemma split_parts_no_separator (sep : ascii) (s part : string) :
  In part (Js.split sep s) -> has_char sep part = false.
Proof.
  revert part. induction s as [| c rest IH]; intros part; cbn [Js.split].
  - intros [<- | []]. reflexivity.
  - destruct (Ascii.eqb c sep) eqn:Hc.
    + intros [<- | Hin]; [reflexivity | apply IH, Hin].
    + destruct (Js.split sep rest) as [| first parts] eqn:Hsplit.
      * intros [<- | []]. cbn [has_char]. rewrite Hc. reflexivity.
      * intros [<- | Hin].
        -- cbn [has_char]. rewrite Hc. apply IH. left. reflexivity.
        -- apply IH. right. exact Hin.
Qed.

Lemma length_zero_empty (s : string) :
  (0 <? String.length s)%nat = negb (String.eqb s "").
Proof. destruct s; reflexivity. Qed.

(** X9: every scope [getTokenScopes] lists is non-empty and has no space in
    it, so [hasScope] is false for the empty scope and for any scope with a
    space; a token with no scope, or an empty one, has no scopes at all. *)
Theorem getTokenScopes_clean (token : TokenSet) :
  (forall s, In s (getTokenScopes token) -> s <> "" /\ has_char " " s = false) /\
  hasScope token "" = false /\
  (forall s, has_char " " s = true -> hasScope token s = false) /\
  (scope token = None \/ scope token = Some "" -> getTokenScopes token = []).
Proof.
  assert (Hclean : forall s, In s (getTokenScopes token) ->
                             s <> "" /\ has_char " " s = false).
  { intros s. unfold getTokenScopes.
    destruct (scope token) as [sc |]; [| intros []].
    destruct (Js.truthy_string (Some sc)); [| intros []].
    rewrite filter_In, length_zero_empty. intros [Hin Hne]. split.
    - intros ->. discriminate Hne.
    - apply (split_parts_no_separator " " sc s Hin). }
  split; [exact Hclean |]. split; [| split].
  - destruct (hasScope token "") eqn:Hhas; [| reflexivity].
    apply includes_In, Hclean in Hhas as [Hne _]. contradiction.
  - intros s Hspace. destruct (hasScope token s) eqn:Hhas; [| reflexivity].
    apply includes_In, Hclean in Hhas as [_ Hno]. congruence.
  - unfold getTokenScopes. intros [-> | ->]; reflexivity.
Qed.

Lemma getTokenScopes_clean_witness :
  hasScope (mkTokenSet "t" "Bearer" None None (Some " read  write ")) "read write"
  = false /\
  getTokenScopes (mkTokenSet "t" "Bearer" None None (Some " read  write "))
  = ["read"; "write"].
Proof.
  split; [| reflexivity].
  apply (proj1 (proj2 (proj2 (getTokenScopes_clean
           (mkTokenSet "t" "Bearer" None None (Some " read  write ")))))).
  reflexivity.
Defined.

Lemma join_cons (sep p : string) (rest : list string) :
  rest <> [] -> Js.join sep (p :: rest) = p +:+ sep +:+ Js.join sep rest.
Proof. destruct rest; [contradiction | reflexivity]. Qed.

Lemma split_join (parts : list string) :
  parts <> [] ->
  Forall (fun s => has_char " " s = false) parts ->
  Js.split " " (Js.join " " parts) = parts.
Proof.
  induction parts as [| p rest IH]; [contradiction |].
  intros _ Hall. inversion Hall as [| ? ? Hp Hrest]; subst.
  destruct rest as [| q rest].
  - cbn [Js.join]. apply split_without_separator, Hp.
  - rewrite join_cons by discriminate.
    change (" " +:+ Js.join " " (q :: rest)) with (String " " (Js.join " " (q :: rest))).
    rewrite (split_at_separator " " p _ Hp), IH; [reflexivity | discriminate | exact Hrest].
Qed.

Lemma join_empty (parts : list string) :
  Forall (fun s => s <> "") parts -> Js.join " " parts = "" -> parts = [].
Proof.
  destruct parts as [| p rest]; [reflexivity |].
  intros Hall. inversion Hall as [| ? ? Hp _]; subst.
  destruct rest as [| q rest]; cbn [Js.join].
  - intros ->. contradiction.
  - destruct p; [contradiction | discriminate].
Qed.

(** X10: scopes joined by spaces, as the request builders send them, come
    back unchanged from a token that carries them: for scopes that are
    non-empty and free of spaces, [getTokenScopes] of a token whose [scope]
    is their join is the list itself, and [hasScope] is membership in it. *)
Theorem getTokenScopes_of_joined (token : TokenSet) (requested : list string) :
  Forall (fun s => s <> "" /\ has_char " " s = false) requested ->
  scope token = Some (Js.join " " requested) ->
  getTokenScopes token = requested /\
  (forall s, hasScope token s = true <-> In s requested).
Proof.
  intros Hall Hscope.
  assert (Hne : Forall (fun s => s <> "") requested)
    by (eapply List.Forall_impl; [| exact Hall]; intros s [H _]; exact H).
  assert (Hno : Forall (fun s => has_char " " s = false) requested)
    by (eapply List.Forall_impl; [| exact Hall]; intros s [_ H]; exact H).
  assert (Hscopes : getTokenScopes token = requested).
  { unfold getTokenScopes. rewrite Hscope. cbn [Js.truthy_string].
    destruct (String.eqb_spec (Js.join " " requested) "") as [Hempty | Hfull].
    - cbn [negb]. symmetry. apply (join_empty requested Hne Hempty).
    - cbn [negb]. rewrite split_join; [| intros ->; apply Hfull; reflexivity | exact Hno].
      clear -Hne. induction Hne as [| s rest Hs _ IH]; [reflexivity |].
      cbn [List.filter]. rewrite length_zero_empty.
      destruct (String.eqb_spec s ""); [contradiction |]. cbn [negb].
      rewrite IH. reflexivity. }
  split; [exact Hscopes |].
  intros s. unfold hasScope. rewrite Hscopes. apply includes_In.
Qed.

Lemma getTokenScopes_of_joined_witness :
  getTokenScopes (mkTokenSet "t" "Bearer" None None (Some "read write admin"))
  = ["read"; "write"; "admin"].
Proof.
  apply (getTokenScopes_of_joined
           (mkTokenSet "t" "Bearer" None None (Some "read write admin"))
           ["read"; "write"; "admin"]).
  - repeat constructor; discriminate.
  - reflexivity.
Defined.

(** X11: the body of the client-credentials grant has [grant_type]
    "client_credentials" and the identifier and secret of the client; it
    has a [scope], the scopes joined by spaces, exactly when scopes are
    configured; and it has nothing else. *)
Theorem buildClientCredentialsBody_fields (config : OAuthConfig) :
  let body := buildClientCredentialsBody config in
  body !! "grant_type" = Some "client_credentials" /\
  body !! "client_id" = Some (clientId config) /\
  body !! "client_secret" = Some (clientSecret config) /\
  body !! "scope"
  = match scopes config with
    | [] => None
    | _ :: _ => Some (Js.join " " (scopes config))
    end /\
  (forall k, is_Some (body !! k) ->
     k ∈ ["grant_type"; "client_id"; "client_secret"; "scope"]).
Proof.
  cbn zeta. unfold buildClientCredentialsBody.
  destruct (scopes config) as [| s rest]; cbn [length Nat.ltb Nat.leb];
    repeat split;
    try (simplify_map_eq; reflexivity);
    intros k;
    repeat (rewrite lookup_insert; case_decide; [subst; intros _; set_solver |]);
    rewrite lookup_empty; intros [? ?]; discriminate.
Qed.

(** ** Expiry over time *)

(** X12: an authorization state is not expired at the time it was created,
    whatever non-negative age is allowed, and with the default age it
    expires after ten minutes exactly; once expired it stays expired as
    time passes. *)
Theorem isStateExpired_over_time (state : AuthorizationState) (maxAgeMs : option Z) :
  (0 <= default 600000 maxAgeMs ->
   isStateExpired (createdAt state) state maxAgeMs = false) /\
  (forall now, isStateExpired now state None = true
               <-> now > createdAt state + 600000) /\
  (forall now now', now <= now' ->
     isStateExpired now state maxAgeMs = true ->
     isStateExpired now' state maxAgeMs = true).
Proof.
  unfold isStateExpired. change (10 * 60 * 1000) with 600000.
  split; [| split].
  - intros Hage. apply Z.ltb_ge. lia.
  - intros now. cbn [default]. rewrite Z.ltb_lt. lia.
  - intros now now' Hle. rewrite !Z.ltb_lt. lia.
Qed.

Lemma isStateExpired_over_time_witness :
  isStateExpired 1000 sample_state (Some 0) = false /\
  isStateExpired 700000 sample_state None = true.
Proof.
  split.
  - apply (proj1 (isStateExpired_over_time sample_state (Some 0))). cbn. lia.
  - apply (proj2 (proj2 (isStateExpired_over_time sample_state None)) 601001 700000);
      [lia | reflexivity].
Defined.

(** X13: a token that is considered expired stays so: [isTokenExpired] can
    only turn from false to true as the clock advances or as the buffer
    grows. *)
Theorem isTokenExpired_monotone (token : TokenSet) (now now' : Z)
    (bufferMs bufferMs' : option Z) :
  now <= now' ->
  default 30000 bufferMs <= default 30000 bufferMs' ->
  isTokenExpired now token bufferMs = true ->
  isTokenExpired now' token bufferMs' = true.
Proof.
  intros Hnow Hbuffer. unfold isTokenExpired. change (30 * 1000) with 30000.
  destruct (expiresAt token) as [[e |] |]; cbn; try discriminate.
  destruct (e =? 0); cbn; [discriminate |].
  rewrite !Z.leb_le. lia.
Qed.

Lemma isTokenExpired_monotone_witness :
  isTokenExpired 80000 (sample_token (Some (Js.Num 100000)) None) (Some 40000) = true.
Proof.
  apply (isTokenExpired_monotone (sample_token (Some (Js.Num 100000)) None)
           70000 80000 None (Some 40000)).
  - lia.
  - cbn. lia.
  - reflexivity.
Defined.

(** ** Starting a flow *)

Section ValidateOAuthConfig.

Context `{api : UrlApi}.
Variable config : OAuthConfig.

Lemma validateOAuthConfig_Ok :
  clientId config <> "" -> authorizationUrl config <> "" -> tokenUrl config <> "" ->
  is_Some (parseUrl (authorizationUrl config)) ->
  is_Some (parseUrl (tokenUrl config)) ->
  validateOAuthConfig config = Ok config.
Proof.
  intros Hid Hauth Htoken [u Hu] [t Ht]. unfold validateOAuthConfig. cbn.
  destruct (String.eqb_spec (clientId config) ""); [contradiction |].
  destruct (String.eqb_spec (authorizationUrl config) ""); [contradiction |].
  destruct (String.eqb_spec (tokenUrl config) ""); [contradiction |].
  cbn. rewrite Hu, Ht. reflexivity.
Qed.

Lemma validateOAuthConfig_Ok_inv (config' : OAuthConfig) :
  validateOAuthConfig config = Ok config' ->
  config' = config /\
  clientId config <> "" /\ authorizationUrl config <> "" /\ tokenUrl config <> "" /\
  is_Some (parseUrl (authorizationUrl config)) /\
  is_Some (parseUrl (tokenUrl config)).
Proof.
  unfold validateOAuthConfig. cbn.
  destruct (String.eqb_spec (clientId config) ""); [discriminate |].
  destruct (String.eqb_spec (authorizationUrl config) ""); [discriminate |].
  destruct (String.eqb_spec (tokenUrl config) ""); [discriminate |].
  cbn.
  destruct (parseUrl (authorizationUrl config)) as [u |]; [| discriminate].
  destruct (parseUrl (tokenUrl config)) as [t |]; [| discriminate].
  intros [= <-]. repeat split; try assumption; eexists; reflexivity.
Qed.

End ValidateOAuthConfig.

(** X14: [validateOAuthConfig] accepts a configuration, returning it as it
    is, exactly when its client identifier and its two endpoint addresses
    are non-empty and both addresses parse as URLs. Of several defects the
    first in that order is reported: an empty identifier before an empty
    address, an empty address before one that does not parse. *)
Theorem validateOAuthConfig_accepts `{api : UrlApi} (config : OAuthConfig) :
  (forall config',
     validateOAuthConfig config = Ok config'
     <-> config' = config /\
         clientId config <> "" /\ authorizationUrl config <> "" /\
         tokenUrl config <> "" /\
         is_Some (parseUrl (authorizationUrl config)) /\
         is_Some (parseUrl (tokenUrl config))) /\
  (clientId config = "" ->
   validateOAuthConfig config
   = Err (oauthError "Missing clientId in OAuth configuration" None None)) /\
  (clientId config <> "" -> authorizationUrl config = "" ->
   validateOAuthConfig config
   = Err (oauthError "Missing authorizationUrl in OAuth configuration" None None)) /\
  (clientId config <> "" -> authorizationUrl config <> "" -> tokenUrl config = "" ->
   validateOAuthConfig config
   = Err (oauthError "Missing tokenUrl in OAuth configuration" None None)) /\
  (clientId config <> "" -> authorizationUrl config <> "" -> tokenUrl config <> "" ->
   parseUrl (authorizationUrl config) = None \/ parseUrl (tokenUrl config) = None ->
   validateOAuthConfig config
   = Err (oauthError "Invalid URL in OAuth configuration" None None)).
Proof.
  split.
  { intros config'. split.
    - apply validateOAuthConfig_Ok_inv.
    - intros (-> & Hid & Hauth & Htoken & Hu & Ht).
      apply validateOAuthConfig_Ok; assumption. }
  unfold validateOAuthConfig. cbn.
  repeat split.
  - intros ->. reflexivity.
  - intros Hid ->. destruct (String.eqb_spec (clientId config) ""); [contradiction |].
    reflexivity.
  - intros Hid Hauth ->.
    destruct (String.eqb_spec (clientId config) ""); [contradiction |].
    destruct (String.eqb_spec (authorizationUrl config) ""); [contradiction |].
    reflexivity.
  - intros Hid Hauth Htoken Hbad.
    destruct (String.eqb_spec (clientId config) ""); [contradiction |].
    destruct (String.eqb_spec (authorizationUrl config) ""); [contradiction |].
    destruct (String.eqb_spec (tokenUrl config) ""); [contradiction |].
    cbn. destruct Hbad as [-> | Hbad]; [reflexivity |].
    rewrite Hbad. destruct (parseUrl (authorizationUrl config)); reflexivity.
Qed.

Lemma validateOAuthConfig_accepts_witness :
  @validateOAuthConfig example_urls
     (mkOAuthConfig "c1" "s3cret" "https://auth/authorize" "https://auth/authorize"
        ["read"] None None)
  = Ok (mkOAuthConfig "c1" "s3cret" "https://auth/authorize" "https://auth/authorize"
          ["read"] None None) /\
  @validateOAuthConfig example_urls sample_config
  = Err (oauthError "Invalid URL in OAuth configuration" None None) /\
  @validateOAuthConfig example_urls
     (mkOAuthConfig "" "s3cret" "" "not-a-url" [] None None)
  = Err (oauthError "Missing clientId in OAuth configuration" None None).
Proof.
  split; [| split].
  - apply (proj1 (@validateOAuthConfig_accepts example_urls
                    (mkOAuthConfig "c1" "s3cret" "https://auth/authorize"
                       "https://auth/authorize" ["read"] None None))).
    repeat split; try discriminate; eexists; reflexivity.
  - destruct (@validateOAuthConfig_accepts example_urls sample_config)
      as (_ & _ & _ & _ & Hbad).
    apply Hbad; try discriminate. right. reflexivity.
  - destruct (@validateOAuthConfig_accepts example_urls
                (mkOAuthConfig "" "s3cret" "" "not-a-url" [] None None))
      as (_ & Hid & _).
    apply Hid. reflexivity.
Defined.

Lemma buildAuthorizationUrl_flow_parameters `{api : UrlApi}
    (config : OAuthConfig) (state : AuthorizationState) (endpoint : URL) :
  parseUrl (authorizationUrl config) = Some endpoint ->
  exists url,
    buildAuthorizationUrl config state = Some url /\
    sp_get "client_id" (searchParams url) = Some (clientId config) /\
    sp_get "redirect_uri" (searchParams url) = Some (redirectUri state) /\
    sp_get "state" (searchParams url) = Some (auth_state state).
Proof.
  intros Hparse. unfold buildAuthorizationUrl. rewrite Hparse.
  eexists. split; [reflexivity |].
  unfold pkce_not_false.
  destruct (scopes config) as [| s0 rest]; destruct (pkce config) as [[|] |];
    cbn [length Nat.ltb Nat.leb fold_left pkceToQueryParams fst snd url_set
         searchParams];
    search_params; repeat split.
Qed.

(** X15: [initializeAuthFlow] always returns: the URL it builds after a
    successful validation cannot fail to parse. It fails exactly with the
    error of [validateOAuthConfig]; otherwise it gives the state it created,
    which carries the redirect address and the time, is not expired, and
    whose [state] value, redirect address and client identifier are query
    parameters of the URL returned with it. *)
Theorem initializeAuthFlow_total `{api : UrlApi} `{crypto : Crypto}
    (stateBytes verifierBytes : list byte) (now : Z)
    (config : OAuthConfig) (redirect : string) :
  exists result,
    initializeAuthFlow stateBytes verifierBytes now config redirect = Some result /\
    (forall e, result = Err e <-> validateOAuthConfig config = Err e) /\
    (forall url state,
       result = Ok (url, state) ->
       validateOAuthConfig config = Ok config /\
       state = createAuthorizationState stateBytes verifierBytes now redirect /\
       buildAuthorizationUrl config state = Some url /\
       redirectUri state = redirect /\
       createdAt state = now /\
       isStateExpired now state None = false /\
       sp_get "state" (searchParams url) = Some (generateState stateBytes) /\
       sp_get "redirect_uri" (searchParams url) = Some redirect /\
       sp_get "client_id" (searchParams url) = Some (clientId config)).
Proof.
  unfold initializeAuthFlow.
  destruct (validateOAuthConfig config) as [config' | e0] eqn:Hvalid.
  - destruct (validateOAuthConfig_Ok_inv config config' Hvalid)
      as (-> & _ & _ & _ & [endpoint Hparse] & _).
    destruct (buildAuthorizationUrl_flow_parameters config
                (createAuthorizationState stateBytes verifierBytes now redirect)
                endpoint Hparse)
      as (url & Hurl & Hid & Hredirect & Hstate).
    rewrite Hurl. eexists. split; [reflexivity |]. split.
    + intros e. split; discriminate.
    + intros url' state' [= <- <-].
      repeat split; try assumption.
      unfold isStateExpired. cbn. apply Z.ltb_ge. lia.
  - eexists. split; [reflexivity |]. split.
    + intros e. split; congruence.
    + intros url state. discriminate.
Qed.

(** ** What a parsed token is *)



(** ** The Authorization header, out and back *)

Lemma lower_ascii_space (c : ascii) :
  Ascii.eqb (Js.lower_ascii c) " " = Ascii.eqb c " ".
Proof. destruct c as [[] [] [] [] [] [] [] []]; reflexivity. Qed.

Lemma toLowerCase_spaces (s : string) :
  has_char " " (Js.toLowerCase s) = has_char " " s.
Proof.
  induction s as [| c rest IH]; cbn [Js.toLowerCase has_char]; [reflexivity |].
  rewrite lower_ascii_space, IH. reflexivity.
Qed.

Lemma split_not_nil (sep : ascii) (s : string) :
  (1 <= length (Js.split sep s))%nat.
Proof.
  destruct s as [| c rest]; cbn [Js.split]; [cbn; lia |].
  destruct (Ascii.eqb c sep); [cbn; lia |].
  destruct (Js.split sep rest); cbn; lia.
Qed.

Lemma split_with_separator (sep : ascii) (s : string) :
  has_char sep s = true -> (2 <= length (Js.split sep s))%nat.
Proof.
  induction s as [| c rest IH]; cbn [has_char Js.split]; [discriminate |].
  destruct (Ascii.eqb c sep).
  - intros _. cbn [length]. pose proof (split_not_nil sep rest). lia.
  - cbn [orb]. intros Hrest. specialize (IH Hrest).
    destruct (Js.split sep rest) as [| p parts]; cbn [length] in *; lia.
Qed.

(** X17: the header [buildRequestHeaders] puts on a request for a token is
    ["<tokenType> <accessToken>"], whatever Authorization the base headers
    had, and the other headers are kept. For a token type that is "bearer"
    in any case, [extractBearerToken] reads the access token back from it
    when the access token has no space, and reads nothing when it has one;
    for a type without a space that is not "bearer" it reads nothing. *)
Theorem authorization_header_round_trip (baseHeaders : gmap string string)
    (token : TokenSet) :
  buildRequestHeaders baseHeaders (Some token) !! "Authorization"
  = Some (tokenType token +:+ " " +:+ accessToken token) /\
  (forall name, name <> "Authorization" ->
     buildRequestHeaders baseHeaders (Some token) !! name = baseHeaders !! name) /\
  buildRequestHeaders baseHeaders None = baseHeaders /\
  (Js.toLowerCase (tokenType token) = "bearer" ->
   has_char " " (accessToken token) = false ->
   extractBearerToken (buildRequestHeaders baseHeaders (Some token) !! "Authorization")
   = Some (accessToken token)) /\
  (Js.toLowerCase (tokenType token) = "bearer" ->
   has_char " " (accessToken token) = true ->
   extractBearerToken (buildRequestHeaders baseHeaders (Some token) !! "Authorization")
   = None) /\
  (has_char " " (tokenType token) = false ->
   Js.toLowerCase (tokenType token) <> "bearer" ->
   extractBearerToken (buildRequestHeaders baseHeaders (Some token) !! "Authorization")
   = None).
Proof.
  assert (Hheader : buildRequestHeaders baseHeaders (Some token) !! "Authorization"
                    = Some (tokenType token +:+ " " +:+ accessToken token)).
  { unfold buildRequestHeaders, createAuthHeader. apply lookup_insert_eq. }
  assert (Hsplit : has_char " " (tokenType token) = false ->
                   Js.split " " (tokenType token +:+ " " +:+ accessToken token)
                   = tokenType token :: Js.split " " (accessToken token)).
  { intros Hno.
    change (" " +:+ accessToken token) with (String " " (accessToken token)).
    apply split_at_separator, Hno. }
  split; [exact Hheader |]. split; [| split; [| split; [| split]]].
  - intros name Hname. unfold buildRequestHeaders.
    apply lookup_insert_ne. congruence.
  - reflexivity.
  - intros Hbearer Hno. rewrite Hheader.
    apply extractBearerToken_accepts; [exact Hbearer | | exact Hno].
    rewrite <- toLowerCase_spaces, Hbearer. reflexivity.
  - intros Hbearer Hspace. rewrite Hheader.
    apply extractBearerToken_parts. rewrite Hsplit.
    + pose proof (split_with_separator " " _ Hspace). cbn [length]. lia.
    + rewrite <- toLowerCase_spaces, Hbearer. reflexivity.
  - intros Hno Hscheme. rewrite Hheader. unfold extractBearerToken.
    destruct (negb (Js.truthy_string _)); [reflexivity |].
    rewrite (Hsplit Hno).
    destruct (negb (length _ =? 2)%nat); [reflexivity |].
    cbn [nth]. destruct (String.eqb_spec (Js.toLowerCase (tokenType token)) "bearer");
      [contradiction | reflexivity].
Qed.

Lemma authorization_header_round_trip_witness :
  extractBearerToken
    (buildRequestHeaders {[ "Content-Type" := "application/json" ]}
       (Some (sample_token None None)) !! "Authorization")
  = Some "abc".
Proof.
  destruct (authorization_header_round_trip {[ "Content-Type" := "application/json" ]}
              (sample_token None None)) as (_ & _ & _ & Hback & _).
  apply Hback; reflexivity.
Defined.

(** ** The store behind the manager *)

(** X18: with the in-memory storage, [setToken] and [deleteToken] always
    succeed; a token set under a key is the one [getToken] then returns,
    and after [deleteToken] the key gives "Token not found"; the tokens
    under other keys, the clock and the requests sent are not touched. *)
Theorem token_storage_round_trip (state : TokenManagerState) (key : string)
    (token : TokenSet) (w : World) :
  let stored := setToken state key token w in
  let deleted := deleteToken state key (snd stored) in
  fst stored = Ok tt /\
  getToken state key (snd stored) = (Ok token, snd stored) /\
  fst deleted = Ok tt /\
  getToken state key (snd deleted)
  = (Err (tokenError "Token not found" (Some key)), snd deleted) /\
  (forall other, other <> key ->
     fst (getToken state other (snd stored)) = fst (getToken state other w) /\
     fst (getToken state other (snd deleted)) = fst (getToken state other w)) /\
  clock (snd stored) = clock w /\ fetched (snd stored) = fetched w /\
  clock (snd deleted) = clock w /\ fetched (snd deleted) = fetched w.
Proof.
  cbn zeta.
  unfold setToken, deleteToken, getToken, tryCatchAsync, storage_set,
    storage_delete, storage_get, bind, ret.
  cbn [fst snd store clock fetched].
  split; [reflexivity |]. split.
  { rewrite lookup_insert_eq. reflexivity. }
  split; [reflexivity |]. split.
  { rewrite lookup_delete_eq. reflexivity. }
  split; [| repeat split].
  intros other Hother. split.
  - rewrite lookup_insert_ne by congruence.
    destruct (store w !! other); reflexivity.
  - rewrite lookup_delete_ne, lookup_insert_ne by congruence.
    destruct (store w !! other); reflexivity.
Qed.

(** ** Refreshing *)

Section Refresh.

Context `{rt : Js.Runtime}.
Variables (state : TokenManagerState) (w : World).

Lemma refreshTokenRequest_result (r : string) :
  let request :=
    mkFetchRequest (tokenUrl (config state)) "POST"
      [("Content-Type", "application/x-www-form-urlencoded")]
      (buildRefreshTokenBody (config state) r) in
  fst (refreshTokenRequest state r w)
  = match fst (httpFetch state request) with
    | Rejected e =>
        Err (tokenError (error_message "Token refresh request failed" e) None)
    | Json data =>
        match parseTokenResponse (clock w + snd (httpFetch state request)) data with
        | Ok tokenSet => Ok tokenSet
        | Err error => Err (tokenError (oauth_message error) None)
        end
    end.
Proof.
  cbn zeta. unfold refreshTokenRequest, tryCatchAsync, fetch_json, dateNow, bind, ret.
  destruct (httpFetch state _) as [[e | data] elapsed]; cbn; [reflexivity |].
  destruct (parseTokenResponse _ data); reflexivity.
Qed.

(** After [getValidToken]: what is stored, and what was sent. *)
Lemma getValidToken_effects (key : string) (result : Result TokenSet TokenError)
    (w' : World) :
  getValidToken state key w = (result, w') ->
  (forall token, result = Ok token -> store w' !! key = Some token) /\
  (forall other, other <> key -> store w' !! other = store w !! other) /\
  (w' = w \/
   exists token r,
     store w !! key = Some token /\ refreshToken token = Some r /\
     isTokenExpired (clock w) token None = true /\
     fetched w'
     = mkFetchRequest (tokenUrl (config state)) "POST"
         [("Content-Type", "application/x-www-form-urlencoded")]
         (buildRefreshTokenBody (config state) r) :: fetched w).
Proof.
  destruct (store w !! key) as [token |] eqn:Hget.
  2: { rewrite (getValidToken_not_found state key w Hget). intros [= <- <-].
       split; [discriminate |]. split; [reflexivity | left; reflexivity]. }
  destruct (isTokenExpired (clock w) token None) eqn:Hexpired.
  2: { rewrite (getValidToken_unexpired state key w token Hget Hexpired).
       intros [= <- <-]. split; [intros t [= <-]; exact Hget |].
       split; [reflexivity | left; reflexivity]. }
  destruct (refreshToken token) as [r |] eqn:Hrefresh.
  2: { rewrite (getValidToken_no_refresh_token state key w token Hget Hexpired Hrefresh).
       intros [= <- <-]. split; [discriminate |].
       split; [reflexivity | left; reflexivity]. }
  rewrite (getValidToken_refresh state key w token r Hget Hexpired Hrefresh).
  destruct (refreshTokenRequest_world state w r) as (Hstore & Hfetched & _).
  destruct (refreshTokenRequest state r w) as [[newToken | e1] w1];
    cbn [snd] in Hstore, Hfetched; intros [= <- <-].
  - cbn [store fetched]. split.
    + intros t [= <-]. apply lookup_insert_eq.
    + split.
      * intros other Hother. rewrite lookup_insert_ne by congruence.
        rewrite Hstore. reflexivity.
      * right. exists token, r. repeat split; assumption.
  - split; [discriminate |]. split.
    + intros other _. rewrite Hstore. reflexivity.
    + right. exists token, r. repeat split; assumption.
Qed.

End Refresh.

(** X19: [refreshTokenRequest] sends one request and leaves the store: a
    POST to the token endpoint of the configuration, as a form, whose
    fields are the grant type "refresh_token", the refresh token given, and
    the identifier and the secret of the client, the secret even when it is
    empty. *)
Theorem refreshTokenRequest_request `{rt : Js.Runtime}
    (state : TokenManagerState) (r : string) (w : World) :
  let w' := snd (refreshTokenRequest state r w) in
  store w' = store w /\
  exists request,
    fetched w' = request :: fetched w /\
    clock w' = clock w + snd (httpFetch state request) /\
    fetch_url request = tokenUrl (config state) /\
    fetch_method request = "POST" /\
    fetch_headers request = [("Content-Type", "application/x-www-form-urlencoded")] /\
    fetch_body request !! "grant_type" = Some "refresh_token" /\
    fetch_body request !! "refresh_token" = Some r /\
    fetch_body request !! "client_id" = Some (clientId (config state)) /\
    fetch_body request !! "client_secret" = Some (clientSecret (config state)) /\
    (forall k, is_Some (fetch_body request !! k) ->
       k ∈ ["grant_type"; "refresh_token"; "client_id"; "client_secret"]).
Proof.
  cbn zeta. destruct (refreshTokenRequest_world state w r) as (Hstore & Hfetched & Hclock).
  split; [exact Hstore |]. eexists. split; [exact Hfetched |].
  split; [exact Hclock |].
  cbn [fetch_url fetch_method fetch_headers fetch_body]. unfold buildRefreshTokenBody.
  repeat split; try (simplify_map_eq; reflexivity).
  intros k.
  repeat (rewrite lookup_insert; case_decide; [subst; intros _; set_solver |]).
  rewrite lookup_empty. intros [? ?]. discriminate.
Qed.

(** X20: how [refreshTokenRequest] ends. When the request is rejected with
    an [Error], the failure carries its message, and when it is rejected
    with something else, "Token refresh request failed". When the endpoint
    answers, the answer is parsed at the time it arrives: a token is
    returned as parsed, and an OAuth error becomes a token error with the
    same message, without its code. *)
Theorem refreshTokenRequest_outcomes `{rt : Js.Runtime}
    (state : TokenManagerState) (r : string) (w : World) :
  let request :=
    mkFetchRequest (tokenUrl (config state)) "POST"
      [("Content-Type", "application/x-www-form-urlencoded")]
      (buildRefreshTokenBody (config state) r) in
  (forall message elapsed,
     httpFetch state request = (Rejected (ThrownError message), elapsed) ->
     fst (refreshTokenRequest state r w) = Err (tokenError message None)) /\
  (forall elapsed,
     httpFetch state request = (Rejected ThrownOther, elapsed) ->
     fst (refreshTokenRequest state r w)
     = Err (tokenError "Token refresh request failed" None)) /\
  (forall data elapsed tokenSet,
     httpFetch state request = (Json data, elapsed) ->
     parseTokenResponse (clock w + elapsed) data = Ok tokenSet ->
     fst (refreshTokenRequest state r w) = Ok tokenSet) /\
  (forall data elapsed error,
     httpFetch state request = (Json data, elapsed) ->
     parseTokenResponse (clock w + elapsed) data = Err error ->
     fst (refreshTokenRequest state r w)
     = Err (tokenError (oauth_message error) None)).
Proof.
  cbn zeta.
  repeat split; intros; rewrite refreshTokenRequest_result;
    match goal with H : httpFetch _ _ = _ |- _ => rewrite H end; cbn [fst snd].
  - reflexivity.
  - reflexivity.
  - match goal with H : parseTokenResponse _ _ = _ |- _ => rewrite H end. reflexivity.
  - match goal with H : parseTokenResponse _ _ = _ |- _ => rewrite H end. reflexivity.
Qed.

Lemma refreshTokenRequest_outcomes_witness :
  fst (@refreshTokenRequest typed_runtime offline_manager "r1" (empty_world 10000))
  = Err (tokenError "connect ECONNREFUSED" None) /\
  fst (@refreshTokenRequest typed_runtime sample_manager "r1" (empty_world 10000))
  = Ok (mkTokenSet "xyz" "Bearer" (Some (Js.Num 3610120)) None None) /\
  fst (@refreshTokenRequest typed_runtime
         (mkTokenManagerState sample_config (fun _ => (Json error_payload, 5)))
         "r1" (empty_world 10000))
  = Err (tokenError "x" None).
Proof.
  split; [| split].
  - apply (proj1 (@refreshTokenRequest_outcomes typed_runtime offline_manager "r1"
                    (empty_world 10000)) "connect ECONNREFUSED" 30).
    reflexivity.
  - destruct (@refreshTokenRequest_outcomes typed_runtime sample_manager "r1"
                (empty_world 10000)) as (_ & _ & Hok & _).
    apply (Hok refreshed_payload 120); reflexivity.
  - destruct (@refreshTokenRequest_outcomes typed_runtime
                (mkTokenManagerState sample_config (fun _ => (Json error_payload, 5)))
                "r1" (empty_world 10000)) as (_ & _ & _ & Herr).
    apply (Herr error_payload 5 (oauthError "x" (Some "invalid_grant") None));
      reflexivity.
Defined.

(** X21: on the in-memory storage of [createMemoryStorage], whose [set]
    cannot fail: whatever [getValidToken] returns, it sends at most one
    request, and then the refresh request for the refresh token that was
    stored; it leaves the tokens under other keys; and a token it returns
    is the token stored under the key when it returns. *)
Theorem getValidToken_stored_is_returned `{rt : Js.Runtime}
    (state : TokenManagerState) (key : string) (w w' : World)
    (result : Result TokenSet TokenError) :
  getValidToken state key w = (result, w') ->
  (forall token, result = Ok token -> store w' !! key = Some token) /\
  (forall other, other <> key -> store w' !! other = store w !! other) /\
  (fetched w' = fetched w \/
   exists token r,
     store w !! key = Some token /\ refreshToken token = Some r /\
     fetched w'
     = mkFetchRequest (tokenUrl (config state)) "POST"
         [("Content-Type", "application/x-www-form-urlencoded")]
         (buildRefreshTokenBody (config state) r) :: fetched w).
Proof.
  intros Hcall.
  destruct (getValidToken_effects state w key result w' Hcall)
    as (Hstored & Hothers & Hsent).
  split; [exact Hstored |]. split; [exact Hothers |].
  destruct Hsent as [-> | (token & r & Hget & Hr & _ & Hfetched)].
  - left. reflexivity.
  - right. exists token, r. repeat split; assumption.
Qed.

Lemma getValidToken_stored_is_returned_witness :
  let w := world_with 10000 (sample_token (Some (Js.Num 9000)) (Some "r1")) in
  let result := @getValidToken typed_runtime sample_manager "u1" w in
  store (snd result) !! "u1"
  = Some (mkTokenSet "xyz" "Bearer" (Some (Js.Num 3610120)) None None).
Proof.
  cbn zeta.
  apply (@getValidToken_stored_is_returned typed_runtime sample_manager "u1"
           (world_with 10000 (sample_token (Some (Js.Num 9000)) (Some "r1")))
           _ (Ok (mkTokenSet "xyz" "Bearer" (Some (Js.Num 3610120)) None None))).
  - reflexivity.
  - reflexivity.
Defined.

(** X22: on the in-memory storage of [createMemoryStorage], whose [set]
    cannot fail, a second call costs nothing while the token lasts: if
    [getValidToken] returned a token that is not expired when it returns,
    calling it again at once returns the same token and sends no request. *)
Theorem getValidToken_again `{rt : Js.Runtime}
    (state : TokenManagerState) (key : string) (w w' : World) (token : TokenSet) :
  getValidToken state key w = (Ok token, w') ->
  isTokenExpired (clock w') token None = false ->
  getValidToken state key w' = (Ok token, w').
Proof.
  intros Hcall Hfresh.
  destruct (getValidToken_effects state w key (Ok token) w' Hcall) as (Hstored & _).
  apply getValidToken_unexpired; [apply Hstored; reflexivity | exact Hfresh].
Qed.

Lemma getValidToken_again_witness :
  let w := world_with 10000 (sample_token (Some (Js.Num 9000)) (Some "r1")) in
  let w' := snd (@getValidToken typed_runtime sample_manager "u1" w) in
  @getValidToken typed_runtime sample_manager "u1" w'
  = (Ok (mkTokenSet "xyz" "Bearer" (Some (Js.Num 3610120)) None None), w').
Proof.
  cbn zeta.
  apply (@getValidToken_again typed_runtime sample_manager "u1"
           (world_with 10000 (sample_token (Some (Js.Num 9000)) (Some "r1")))).
  - reflexivity.
  - reflexivity.
Defined.


(** ** Time left, new expiry, merging *)

(** X24: [getTimeUntilExpiry] gives nothing for a token without a
    (non-zero) [expiresAt], and otherwise the milliseconds left, never
    negative: zero once the expiry is reached. It agrees with
    [isTokenExpired]: a token is expired under the default buffer exactly
    when at most 30000 ms are left, and under a buffer of zero exactly when
    none is left. *)
Theorem getTimeUntilExpiry_left (now : Z) (token : TokenSet) :
  (getTimeUntilExpiry now token = None
   <-> expiresAt token = None \/ expiresAt token = Some (Js.Num 0)
       \/ expiresAt token = Some Js.NaN) /\
  (forall e, expiresAt token = Some (Js.Num e) -> e <> 0 ->
     getTimeUntilExpiry now token = Some (Js.Num (Z.max 0 (e - now)))) /\
  (forall left, getTimeUntilExpiry now token = Some left ->
     exists ms, left = Js.Num ms /\ 0 <= ms) /\
  (isTokenExpired now token None = true
   <-> exists ms, getTimeUntilExpiry now token = Some (Js.Num ms) /\ ms <= 30000) /\
  (isTokenExpired now token (Some 0) = true
   <-> getTimeUntilExpiry now token = Some (Js.Num 0)).
Proof.
  unfold getTimeUntilExpiry, isTokenExpired. change (30 * 1000) with 30000.
  destruct (expiresAt token) as [[e |] |]; cbn.
  - destruct (Z.eqb_spec e 0) as [-> | Hne]; cbn.
    + split; [split; [intros _; right; left; reflexivity | reflexivity] |].
      split; [intros e' [= <-] Hne; contradiction |].
      split; [discriminate |].
      split; (split; [discriminate | intros H; try destruct H as (? & H & _); discriminate]).
    + split.
      { split; [discriminate |].
        intros [H | [H | H]]; try discriminate. injection H as ->. contradiction. }
      split; [intros e' [= <-] _; reflexivity |].
      split; [intros left [= <-]; eexists; split; [reflexivity | lia] |].
      split.
      * rewrite Z.leb_le. split.
        -- intros H. eexists. split; [reflexivity | lia].
        -- intros (ms & [= <-] & Hms). lia.
      * rewrite Z.leb_le. split.
        -- intros H. f_equal. f_equal. lia.
        -- intros [= H]. lia.
  - split; [split; [intros _; right; right; reflexivity | reflexivity] |].
    split; [discriminate |]. split; [discriminate |].
    split; (split; [discriminate | intros H; try destruct H as (? & H & _); discriminate]).
  - split; [split; [intros _; left; reflexivity | reflexivity] |].
    split; [discriminate |]. split; [discriminate |].
    split; (split; [discriminate | intros H; try destruct H as (? & H & _); discriminate]).
Qed.



(** X26: [mergeTokens] takes everything from the new token but keeps the
    old refresh token when the new one has none: the merged token can be
    refreshed when either can, merging is associative, and merging onto a
    new token that has its own refresh token, or merging a token with
    itself, changes nothing. *)
Theorem mergeTokens_laws (a b c : TokenSet) :
  accessToken (mergeTokens a b) = accessToken b /\
  tokenType (mergeTokens a b) = tokenType b /\
  expiresAt (mergeTokens a b) = expiresAt b /\
  scope (mergeTokens a b) = scope b /\
  canRefreshToken (mergeTokens a b) = canRefreshToken a || canRefreshToken b /\
  (refreshToken b = None -> refreshToken (mergeTokens a b) = refreshToken a) /\
  (refreshToken b <> None -> mergeTokens a b = b) /\
  mergeTokens a a = a /\
  mergeTokens (mergeTokens a b) c = mergeTokens a (mergeTokens b c).
Proof.
  unfold mergeTokens, canRefreshToken.
  destruct a as [aa at_ ae [ar |] asc], b as [ba bt be [br |] bsc],
           c as [ca ct ce [cr |] csc];
    cbn; repeat split; try reflexivity; try congruence;
    intros H; congruence.
Qed.

Lemma mergeTokens_laws_witness :
  refreshToken
    (mergeTokens (sample_token (Some (Js.Num 9000)) (Some "r1"))
                 (mkTokenSet "xyz" "Bearer" (Some (Js.Num 3610120)) None None))
  = Some "r1" /\
  mergeTokens (sample_token (Some (Js.Num 9000)) (Some "r1"))
              (mkTokenSet "xyz" "Bearer" None (Some "r2") None)
  = mkTokenSet "xyz" "Bearer" None (Some "r2") None.
Proof.
  split.
  - destruct (mergeTokens_laws (sample_token (Some (Js.Num 9000)) (Some "r1"))
                (mkTokenSet "xyz" "Bearer" (Some (Js.Num 3610120)) None None)
                (sample_token None None)) as (_ & _ & _ & _ & _ & Hkeep & _).
    rewrite Hkeep; reflexivity.
  - destruct (mergeTokens_laws (sample_token (Some (Js.Num 9000)) (Some "r1"))
                (mkTokenSet "xyz" "Bearer" None (Some "r2") None)
                (sample_token None None)) as (_ & _ & _ & _ & _ & _ & Hnew & _).
    apply Hnew. discriminate.
Defined.

(** ** The other middlewares *)

(** X27: [optionalAuth] never answers in place of the chain, and calls
    [next] whenever the validator returns. With no token, or an empty one,
    extracted, the request is passed on as it came and the validator is not
    asked; with a token the validator rejects by [Err], the request is
    passed on as it came; with a token the validator accepts, it is passed
    on with the validated token attached. So where [createAuthMiddleware]
    lets a request through, [optionalAuth] passes on the same request, and
    where [createAuthMiddleware] answers 401, [optionalAuth] passes the
    request on unchanged. *)
Theorem optionalAuth_never_blocks (validator : TokenValidator) (req : Request) :
  (forall res, optionalAuth validator req <> Responded res) /\
  (extractToken req = None \/ extractToken req = Some "" ->
   forall other : TokenValidator, optionalAuth other req = Next req) /\
  (forall t e,
     extractToken req = Some t -> t <> "" -> validator t = Err e ->
     optionalAuth validator req = Next req) /\
  (forall t value,
     extractToken req = Some t -> t <> "" -> validator t = Ok value ->
     optionalAuth validator req
     = Next (mkRequest (authorization req) (access_token req) (Some value))) /\
  (forall req', createAuthMiddleware validator req = Next req' ->
                optionalAuth validator req = Next req') /\
  (forall res, createAuthMiddleware validator req = Responded res ->
               optionalAuth validator req = Next req).
Proof.
  split; [| split; [| split; [| split; [| split]]]].
  - intros res. unfold optionalAuth.
    destruct (negb (Js.truthy_string (extractToken req))); [discriminate |].
    destruct (validator (default "" (extractToken req))); discriminate.
  - intros Hnone other. unfold optionalAuth.
    destruct Hnone as [-> | ->]; reflexivity.
  - intros t e Ht Hne Hv. unfold optionalAuth. rewrite Ht.
    change (default "" (Some t)) with t. cbn [Js.truthy_string].
    destruct (String.eqb_spec t ""); [contradiction |]. cbn [negb].
    rewrite Hv. reflexivity.
  - intros t value Ht Hne Hv. unfold optionalAuth. rewrite Ht.
    change (default "" (Some t)) with t. cbn [Js.truthy_string].
    destruct (String.eqb_spec t ""); [contradiction |]. cbn [negb].
    rewrite Hv. reflexivity.
  - unfold optionalAuth, createAuthMiddleware.
    destruct (negb (Js.truthy_string (extractToken req))); [discriminate |].
    destruct (validator (default "" (extractToken req))); [| discriminate].
    intros req' H. exact H.
  - unfold optionalAuth, createAuthMiddleware.
    destruct (negb (Js.truthy_string (extractToken req))); [reflexivity |].
    destruct (validator (default "" (extractToken req))); [discriminate | reflexivity].
Qed.

Lemma optionalAuth_never_blocks_witness :
  optionalAuth reject_all (header_request "Bearer short")
  = Next (header_request "Bearer short") /\
  optionalAuth accept_all (query_request (Js.Str "t0ken"))
  = Next {| authorization := None; access_token := Js.Str "t0ken";
            token := Some {| accessToken := "t0ken"; tokenType := "Bearer";
                             expiresAt := None; refreshToken := None;
                             scope := None |} |} /\
  optionalAuth accept_all (query_request (Js.Str ""))
  = Next (query_request (Js.Str "")).
Proof.
  split; [| split].
  - destruct (optionalAuth_never_blocks reject_all (header_request "Bearer short"))
      as (_ & _ & Hreject & _).
    apply (Hreject "short" (oauthError "Invalid token format" None None));
      [reflexivity | discriminate | reflexivity].
  - destruct (optionalAuth_never_blocks accept_all (query_request (Js.Str "t0ken")))
      as (_ & _ & _ & Haccept & _).
    apply (Haccept "t0ken"); [reflexivity | discriminate | reflexivity].
  - destruct (optionalAuth_never_blocks accept_all (query_request (Js.Str "")))
      as (_ & Hnone & _).
    apply Hnone. right. reflexivity.
Defined.

(** X28: the validator of [createSimpleValidator] accepts exactly the
    tokens of ten or more UTF-16 code units, as a Bearer token with nothing
    but the access token. So behind [createAuthMiddleware] a non-empty
    extracted token shorter than that is answered 401 "invalid_token" with
    "Invalid token format", and a longer one goes through. *)
Theorem createSimpleValidator_threshold (token_string : string) (req : Request) :
  (forall value,
     createSimpleValidator token_string = Ok value
     <-> (10 <= js_length token_string)%nat /\
         value = mkTokenSet token_string "Bearer" None None None) /\
  ((js_length token_string < 10)%nat ->
   createSimpleValidator token_string
   = Err (oauthError "Invalid token format" None None)) /\
  (extractToken req = Some token_string -> token_string <> "" ->
   createAuthMiddleware createSimpleValidator req
   = if (js_length token_string <? 10)%nat
     then Responded (mkResponse 401 "invalid_token" "Invalid token format")
     else Next (mkRequest (authorization req) (access_token req)
                  (Some (mkTokenSet token_string "Bearer" None None None)))).
Proof.
  assert (Hshort : (js_length token_string < 10)%nat ->
                   createSimpleValidator token_string
                   = Err (oauthError "Invalid token format" None None)).
  { intros Hlt. unfold createSimpleValidator.
    apply Nat.ltb_lt in Hlt. rewrite Hlt, orb_true_r. reflexivity. }
  assert (Hlong : (10 <= js_length token_string)%nat ->
                  createSimpleValidator token_string
                  = Ok (mkTokenSet token_string "Bearer" None None None)).
  { intros Hge. unfold createSimpleValidator.
    destruct token_string as [| c rest]; [cbn in Hge; lia |].
    cbn [Js.truthy_string String.eqb negb orb].
    destruct (Nat.ltb_spec (js_length (String c rest)) 10); [lia | reflexivity]. }
  split; [| split].
  - intros value. split.
    + intros Hok. destruct (Nat.lt_ge_cases (js_length token_string) 10) as [Hlt | Hge].
      * rewrite (Hshort Hlt) in Hok. discriminate.
      * rewrite (Hlong Hge) in Hok. injection Hok as <-. split; [exact Hge | reflexivity].
    + intros [Hge ->]. apply Hlong, Hge.
  - exact Hshort.
  - intros Hextract Hne.
    rewrite (createAuthMiddleware_validates createSimpleValidator req token_string
               Hextract Hne).
    destruct (Nat.ltb_spec (js_length token_string) 10) as [Hlt | Hge].
    + rewrite (Hshort Hlt). reflexivity.
    + rewrite (Hlong Hge). reflexivity.
Qed.

Lemma createSimpleValidator_threshold_witness :
  createSimpleValidator "short" = Err (oauthError "Invalid token format" None None) /\
  createAuthMiddleware createSimpleValidator (header_request "Bearer shorttoken")
  = Next (mkRequest (Some "Bearer shorttoken") Js.Undefined
            (Some (mkTokenSet "shorttoken" "Bearer" None None None))).
Proof.
  split.
  - apply (proj1 (proj2 (createSimpleValidator_threshold "short"
                           (header_request "Bearer short")))).
    vm_compute. lia.
  - apply (proj2 (proj2 (createSimpleValidator_threshold "shorttoken"
                           (header_request "Bearer shorttoken"))));
      [reflexivity | discriminate].
Defined.

(** X29: [createApiKeyMiddleware] lets a request through, unchanged,
    exactly when the header of the configured name, looked up in lower
    case, has a non-empty value that is one of the valid keys. A missing or
    empty header is answered 401 "unauthorized", naming the header as it
    was configured, and any other value 401 "invalid_api_key"; an empty
    string among the valid keys opens nothing. *)
Theorem createApiKeyMiddleware_decides (validApiKeys : gset string)
    (headerName : option string) (req : HttpRequest) :
  let name := default "X-API-Key" headerName in
  let apiKey := header (Js.toLowerCase name) req in
  (forall req',
     createApiKeyMiddleware validApiKeys headerName req = HttpNext req'
     <-> req' = req /\
         exists key, apiKey = Some key /\ key <> "" /\ key ∈ validApiKeys) /\
  (apiKey = None \/ apiKey = Some "" ->
   createApiKeyMiddleware validApiKeys headerName req
   = HttpResponded
       (mkResponse 401 "unauthorized" ("Missing " +:+ name +:+ " header"))) /\
  (forall key, apiKey = Some key -> key <> "" -> key ∉ validApiKeys ->
   createApiKeyMiddleware validApiKeys headerName req
   = HttpResponded (mkResponse 401 "invalid_api_key" "Invalid API key")).
Proof.
  cbn zeta. unfold createApiKeyMiddleware.
  destruct (header (Js.toLowerCase (default "X-API-Key" headerName)) req)
    as [key |] eqn:Hheader; cbn [Js.truthy_string].
  - change (default "" (Some key)) with key.
    destruct (String.eqb_spec key "") as [-> | Hne]; cbn [negb].
    + split; [| split].
      * intros req'. split; [discriminate |].
        intros (_ & k & [= <-] & Hk & _). contradiction.
      * intros _. reflexivity.
      * intros k [= <-] Hk. contradiction.
    + destruct (bool_decide_reflect (key ∈ validApiKeys)) as [Hin | Hout]; cbn [negb].
      * split; [| split].
        -- intros req'. split.
           ++ intros [= Heq]. subst req'. split; [reflexivity |].
              exists key. repeat split; assumption.
           ++ intros [-> _]. reflexivity.
        -- intros [H | [= H]]; [discriminate | contradiction].
        -- intros k [= <-] _ Hk. contradiction.
      * split; [| split].
        -- intros req'. split; [discriminate |].
           intros (_ & k & [= <-] & _ & Hk). contradiction.
        -- intros [H | [= H]]; [discriminate | contradiction].
        -- intros k _ _ _. reflexivity.
  - split; [| split].
    + intros req'. split; [discriminate |].
      intros (_ & k & H & _). discriminate H.
    + intros _. reflexivity.
    + intros k H. discriminate H.
Qed.

(** X30: what [createFlexibleAuthMiddleware] lets through. With a bearer
    configuration, exactly the requests whose extracted token is non-empty
    and equal to the configured token, which is then attached: an empty
    configured token opens nothing. With an API-key configuration, exactly
    the requests whose header, [x-api-key] unless another name is
    configured, is the configured non-empty key. With an OAuth
    configuration and no validator, what [createSimpleValidator] accepts. *)
Theorem createFlexibleAuthMiddleware_passes (req : HttpRequest) :
  (forall expected validator req',
     createFlexibleAuthMiddleware (BearerConfig expected) validator req = HttpNext req'
     <-> extractToken (request req) = Some expected /\ expected <> "" /\
         req' = mkHttpRequest
                  (mkRequest (authorization (request req)) (access_token (request req))
                     (Some (mkTokenSet expected "Bearer" None None None)))
                  (other_headers req)) /\
  (forall key headerName queryParamName validator req',
     createFlexibleAuthMiddleware (ApiKeyConfig key headerName queryParamName)
       validator req = HttpNext req'
     <-> req' = req /\ key <> "" /\
         header (Js.toLowerCase (default "X-API-Key" headerName)) req = Some key) /\
  (forall oauth,
     createFlexibleAuthMiddleware (OAuth2Config oauth) None req
     = on_request (createAuthMiddleware createSimpleValidator) req).
Proof.
  split; [| split].
  - intros expected validator req'.
    unfold createFlexibleAuthMiddleware, on_request, createAuthMiddleware.
    destruct (extractToken (request req)) as [t |] eqn:Hextract;
      cbn [Js.truthy_string].
    + change (default "" (Some t)) with t.
      destruct (String.eqb_spec t "") as [-> | Hne]; cbn [negb].
      * split; [discriminate |]. intros ([= <-] & Hexp & _). contradiction.
      * destruct (String.eqb_spec t expected) as [-> | Hdiff].
        -- split.
           ++ intros [= Heq]. subst req'. repeat split. exact Hne.
           ++ intros (_ & _ & ->). reflexivity.
        -- split; [discriminate |]. intros ([= ->] & _). contradiction.
    + split; [discriminate |]. intros (H & _). discriminate H.
  - intros key headerName queryParamName validator req'.
    unfold createFlexibleAuthMiddleware, createApiKeyMiddleware.
    destruct (header (Js.toLowerCase (default "X-API-Key" headerName)) req)
      as [k |]; cbn [Js.truthy_string].
    + change (default "" (Some k)) with k.
      destruct (String.eqb_spec k "") as [-> | Hne]; cbn [negb].
      * split; [discriminate |]. intros (_ & Hkey & [= <-]). contradiction.
      * destruct (bool_decide_reflect (k ∈ ({[ key ]} : gset string)))
          as [Hin | Hout]; cbn [negb].
        -- apply elem_of_singleton in Hin. subst k. split.
           ++ intros [= Heq]. subst req'. repeat split. exact Hne.
           ++ intros (-> & _). reflexivity.
        -- split; [discriminate |]. intros (_ & _ & [= ->]).
           exfalso. apply Hout. apply elem_of_singleton. reflexivity.
    + split; [discriminate |]. intros (_ & _ & H). discriminate H.
  - intros oauth. reflexivity.
Qed.
